(** * Multi-PC monitoring dashboard: the collector's store, queries and routes

    A shallow embedding of the backend of the dashboard:
    - the [SystemInfo] mongoose model (schema, TTL index and the three
      statics [getLatestData], [getHistoricalData], [getOverviewStats]);
    - the express router mounted on [/api/systemdata] (POST [/], GET [/],
      GET [/pcs], DELETE [/cleanup]).

    Conventions.  Dates are integers, milliseconds since the epoch, as
    [Date.now()] gives them.  JavaScript numbers carried by a document
    ([cpu], [ram], [disk], [uptime]) are exact rationals; IEEE rounding of
    sums is not modelled.  Strings are byte strings, the UTF-8 encoding of
    the JavaScript string.  The collection is the list of its documents in
    insertion (natural) order. *)

From Stdlib Require Import List String Ascii ZArith QArith Qround Qabs.
From Stdlib Require Import Bool Lia Lqa.
From Stdlib Require Import Sorting.Sorted Sorting.Permutation.
From Stdlib Require Import Structures.OrdersEx.
From Stdlib Require Import Decimal Numbers.DecimalString Numbers.DecimalPos.
Import ListNotations.

Local Open Scope string_scope.
Local Open Scope list_scope.
Local Open Scope Z_scope.

(** ** JavaScript helpers used by the routes *)

Module JS.

(** White space stripped by [parseInt] and [String.prototype.trim]: the
    characters WhiteSpace and LineTerminator of the language.  A string is
    the sequence of the bytes of its UTF-8 encoding, so a white space
    character takes one, two or three bytes. *)

(** One byte: TAB, LF, VT, FF, CR and SPACE. *)
Definition is_ws (c : ascii) : bool :=
  let n := N_of_ascii c in
  ((9 <=? n) && (n <=? 13))%N || (n =? 32)%N.

(** Two bytes: U+00A0, the no-break space. *)
Definition is_ws2 (c1 c2 : ascii) : bool :=
  ((N_of_ascii c1 =? 194) && (N_of_ascii c2 =? 160))%N.

(** Three bytes: U+1680; U+2000 to U+200A, U+2028, U+2029 and U+202F;
    U+205F; U+3000; U+FEFF. *)
Definition is_ws3 (c1 c2 c3 : ascii) : bool :=
  let '(a, b, c) := (N_of_ascii c1, N_of_ascii c2, N_of_ascii c3) in
  ((a =? 225) && (b =? 154) && (c =? 128)
   || (a =? 226) && (b =? 128)
      && ((128 <=? c) && (c <=? 138) || (c =? 168) || (c =? 169)
          || (c =? 175))
   || (a =? 226) && (b =? 129) && (c =? 159)
   || (a =? 227) && (b =? 128) && (c =? 128)
   || (a =? 239) && (b =? 187) && (c =? 191))%N.

(** First byte of a white space character of two or three bytes. *)
Definition ws_lead (c : ascii) : bool :=
  let n := N_of_ascii c in
  ((n =? 194) || (n =? 225) || (n =? 226) || (n =? 227) || (n =? 239))%N.

(** The string without the white space it starts with. *)
Fixpoint skip_ws (s : string) : string :=
  match s with
  | EmptyString => EmptyString
  | String c1 r1 =>
      if is_ws c1 then skip_ws r1
      else if negb (ws_lead c1) then s
      else
        match r1 with
        | String c2 r2 =>
            if is_ws2 c1 c2 then skip_ws r2
            else
              match r2 with
              | String c3 r3 => if is_ws3 c1 c2 c3 then skip_ws r3 else s
              | EmptyString => s
              end
        | EmptyString => s
        end
  end.

(** The string without the white space it ends with: what is left of a
    string made of white space only is empty. *)
Fixpoint trim_end (s : string) : string :=
  match s with
  | EmptyString => EmptyString
  | String c r =>
      if (skip_ws s =? "")%string then EmptyString else String c (trim_end r)
  end.

(** [s.trim()] *)
Definition trim (s : string) : string := trim_end (skip_ws s).

(** Value of a digit in the given radix, if it is one. *)
Definition digit_val (radix : Z) (c : ascii) : option Z :=
  let n := Z.of_N (N_of_ascii c) in
  let v :=
    if (48 <=? n) && (n <=? 57) then n - 48
    else if (97 <=? n) && (n <=? 122) then n - 87
    else if (65 <=? n) && (n <=? 90) then n - 55
    else radix in
  if v <? radix then Some v else None.

(** The longest prefix of digits, read in [radix]; [acc] is [None]
    until a first digit has been seen. *)
Fixpoint digits (radix : Z) (s : string) (acc : option Z) : option Z :=
  match s with
  | EmptyString => acc
  | String c r =>
      match digit_val radix c with
      | Some d =>
          digits radix r
            (Some (radix * (match acc with Some a => a | None => 0 end) + d))
      | None => acc
      end
  end.

(** [parseInt(s)] without a radix argument; [None] is NaN. *)
Definition parseInt (s : string) : option Z :=
  let s1 := skip_ws s in
  let '(sign, s2) :=
    match s1 with
    | String "-" r => (-1, r)
    | String "+" r => (1, r)
    | _ => (1, s1)
    end in
  let '(radix, s3) :=
    match s2 with
    | String "0" (String "x" r) => (16, r)
    | String "0" (String "X" r) => (16, r)
    | _ => (10, s2)
    end in
  option_map (Z.mul sign) (digits radix s3 None).

(** [!s] for a value that is a string or [undefined]. *)
Definition falsy (s : option string) : bool :=
  match s with
  | None => true
  | Some v => (v =? "")%string
  end.

(** [x === undefined] *)
Definition undefined {A : Type} (x : option A) : bool :=
  match x with
  | None => true
  | Some _ => false
  end.

(** Number to string for an integer, as in a template literal. *)
Definition toString (z : Z) : string := NilZero.string_of_int (Z.to_int z).

End JS.

(** ** Rational helpers *)

Definition Qltb (x y : Q) : bool := negb (Qle_bool y x).

(** [$round: [q, 0]] of the aggregation framework: to the nearest
    integer, a half goes to the even neighbour. *)
Definition round_half_even (q : Q) : Z :=
  let f := Qfloor q in
  match ((q - inject_Z f) ?= (1 # 2))%Q with
  | Lt => f
  | Gt => f + 1
  | Eq => if Z.even f then f else f + 1
  end.

(** [$round: [q, 2]] *)
Definition round2 (q : Q) : Q := Qmake (round_half_even (q * 100)) 100.

(** ** The model [SystemInfo] *)

(** A stored document.  [_id] stands for the ObjectId; [createdAt] is
    stamped by [timestamps: true] when the document is saved. *)
Record SystemInfo := mkSystemInfo {
  _id : nat;
  pcId : string;
  cpu : Q;
  ram : Q;
  disk : Q;
  os : string;
  uptime : Q;
  createdAt : Z
}.

(** The collection [systeminfos], oldest insertion first. *)
Definition Collection := list SystemInfo.

Definition ms_per_hour : Z := 60 * 60 * 1000.

(** [expireAfterSeconds] of the TTL index on [createdAt]. *)
Definition expireAfterSeconds : Z := 24 * 60 * 60.

(** ** Sorting ([$sort], [.sort()])

    The database sorts by the keys it is given and promises no order
    between documents whose keys are equal.  [sort_by] is one sort it may
    perform, a stable insertion sort that leaves such documents in the
    order of the collection; [sort_result] below is every sort it may
    perform, and what is said about documents with equal keys is said of
    all of them. *)

Section Sort.
Context {A : Type}.
Variable leb : A -> A -> bool.

Fixpoint insert_sorted (x : A) (l : list A) : list A :=
  match l with
  | [] => [x]
  | y :: r => if leb x y then x :: l else y :: insert_sorted x r
  end.

Fixpoint sort_by (l : list A) : list A :=
  match l with
  | [] => []
  | x :: r => insert_sorted x (sort_by r)
  end.
End Sort.

(** Order of [{ pcId: 1, createdAt: -1 }]: strings by binary comparison,
    then newest first. *)
Definition pcId_asc_createdAt_desc (a b : SystemInfo) : bool :=
  match String_as_OT.compare (pcId a) (pcId b) with
  | Lt => true
  | Gt => false
  | Eq => createdAt b <=? createdAt a
  end.

(** Order of [{ createdAt: -1 }]. *)
Definition createdAt_desc (a b : SystemInfo) : bool :=
  createdAt b <=? createdAt a.

(** Order of [{ createdAt: 1 }]. *)
Definition createdAt_asc (a b : SystemInfo) : bool :=
  createdAt a <=? createdAt b.

(** ** Aggregation stages *)

Definition has_pcId (p : string) (d : SystemInfo) : bool :=
  (pcId d =? p)%string.

(** [$group: { _id: '$pcId', latestData: { $first: '$$ROOT' } }] followed
    by [$replaceRoot]: the first document of the stream for each key, the
    groups in the order their keys first show up. *)
Fixpoint group_first (docs : list SystemInfo) (seen : list string)
  : list SystemInfo :=
  match docs with
  | [] => []
  | d :: r =>
      if existsb (String.eqb (pcId d)) seen
      then group_first r seen
      else d :: group_first r (pcId d :: seen)
  end.

(** [$avg]: running sum and count, divided at the end. *)
Definition avg (xs : list Q) : Q :=
  let '(s, n) :=
    fold_left (fun (acc : Q * Z) x => ((fst acc + x)%Q, snd acc + 1))
              xs (0%Q, 0) in
  (s / inject_Z n)%Q.

(** [$addToSet] *)
Definition addToSet (s : list string) (x : string) : list string :=
  if existsb (String.eqb x) s then s else s ++ [x].

(** Output document of [getOverviewStats]. *)
Record Overview := mkOverview {
  avgCpu : Q;
  avgRam : Q;
  avgDisk : Q;
  totalPCs : nat
}.

(** ** Statics of the schema *)

Definition systemInfoSchema_statics : list string :=
  ["getLatestData"; "getHistoricalData"; "getOverviewStats"].

(** [getLatestData]: sort, group by [pcId] keeping the first, replace root. *)
Definition getLatestData (db : Collection) : list SystemInfo :=
  group_first (sort_by pcId_asc_createdAt_desc db) [].

(** The conditions of [find] and [findOne] are cast with the schema
    before they reach the database: the value searched for under [pcId]
    goes through the [trim] setter of that path, as the value of a
    document does when it is set. *)
Definition cast_pcId (p : string) : string := JS.trim p.

(** [getHistoricalData(pcId, hours)] at [Date.now() = now]. *)
Definition getHistoricalData (p : string) (hours : Z) (now : Z)
  (db : Collection) : list SystemInfo :=
  let cutoff := now - hours * 60 * 60 * 1000 in
  sort_by createdAt_asc
    (filter (fun d => has_pcId (cast_pcId p) d && (cutoff <=? createdAt d))
            db).

(** [getOverviewStats()] at [Date.now() = now]: the result array of the
    pipeline, empty when [$match] lets nothing through. *)
Definition getOverviewStats (now : Z) (db : Collection) : list Overview :=
  let cutoff := now - 24 * 60 * 60 * 1000 in
  match filter (fun d => cutoff <=? createdAt d) db with
  | [] => []
  | matched =>
      let pcs := fold_left addToSet (map pcId matched) [] in
      [ {| avgCpu := round2 (avg (map cpu matched));
           avgRam := round2 (avg (map ram matched));
           avgDisk := round2 (avg (map disk matched));
           totalPCs := List.length pcs |} ]
  end.

(** What the stages of [getLatestData] leave open: [out] is a result of
    [$sort] on [l] when it holds the documents of [l] in an order that
    agrees with the sort keys. *)
Definition sort_result {A : Type} (leb : A -> A -> bool) (l out : list A)
  : Prop :=
  Permutation l out /\ StronglySorted (fun a b => leb a b = true) out.

(** [res] is a result of the pipeline of [getLatestData] on [db]: the
    first document of each group of some sorted stream; [$group] fixes no
    order of its output either. *)
Definition getLatestData_result (db : Collection) (res : list SystemInfo)
  : Prop :=
  exists sorted,
    sort_result pcId_asc_createdAt_desc db sorted /\
    Permutation (group_first sorted []) res.

(** A document of [db] that no document of its machine is newer than. *)
Definition newest_of_machine (db : Collection) (e : SystemInfo) : Prop :=
  In e db /\
  forall s, In s db -> pcId s = pcId e -> createdAt s <= createdAt e.

(** [SystemInfo.findOne({ pcId }).sort({ createdAt: -1 })] *)
Definition findOne_latest (p : string) (db : Collection) : option SystemInfo :=
  hd_error (sort_by createdAt_desc (filter (has_pcId (cast_pcId p)) db)).

(** ** Expiry *)

(** The TTL monitor, run at date [t].  The monitor is a background task
    of the database server, not code of the backend, which only declares
    the index; this is what the manual of the database says one run does:
    it removes the documents whose [createdAt] is [expireAfterSeconds] or
    more in the past.  When it runs is up to the server. *)
Definition ttl_sweep (t : Z) (db : Collection) : Collection :=
  filter (fun d => t <? createdAt d + expireAfterSeconds * 1000) db.

(** A Sample is expired at [now] when its age exceeds the retention
    window of 24 hours. *)
Definition expired (now : Z) (d : SystemInfo) : bool :=
  createdAt d + 24 * ms_per_hour <? now.

(** Modelled from the spec: [purgeOlderThan(h)], which the router expects
    under the name [cleanupOldData] and which no file of the backend
    defines.  It removes every Sample with [recordedAt < now - h] hours and
    returns the count removed together with what is left. *)
Definition purgeOlderThan (hours : Z) (now : Z) (db : Collection)
  : nat * Collection :=
  let cutoff := now - hours * ms_per_hour in
  (List.length (filter (fun d => createdAt d <? cutoff) db),
   filter (fun d => negb (createdAt d <? cutoff)) db).

(** ** The router *)

(** Body of a POST, destructured: [None] is [undefined].  A field that is
    present carries a value of the JSON type the schema declares for it,
    as the agent sends it. *)
Record PostBody := mkPostBody {
  body_pcId : option string;
  body_cpu : option Q;
  body_ram : option Q;
  body_disk : option Q;
  body_os : option string;
  body_uptime : option Q
}.

Inductive PostResponse :=
| PostCreated (id : nat) (pc : string) (timestamp : Z)
| PostBadRequest (message : string)
| PostError (message : string).

Definition post_status (r : PostResponse) : Z :=
  match r with
  | PostCreated _ _ _ => 201
  | PostBadRequest _ => 400
  | PostError _ => 500
  end.

Definition missing_fields_message : string :=
  "Missing required fields: pcId, cpu, ram, disk, os, uptime".

Definition invalid_ranges_message : string :=
  "Invalid data ranges: cpu/ram/disk (0-100), uptime (>=0)".

Definition within (lo hi x : Q) : bool := Qle_bool lo x && Qle_bool x hi.

(** Validation that [save()] runs from the schema: [required] on every
    path (an empty string does not satisfy it), [min] and [max]. *)
Definition schema_valid (d : SystemInfo) : bool :=
  negb (pcId d =? "")%string && within 0 100 (cpu d) && within 0 100 (ram d)
  && within 0 100 (disk d) && negb (os d =? "")%string
  && Qle_bool 0 (uptime d).

(** [new SystemInfo({...})] then [save()]: the [trim] setter of [pcId] is
    applied, the document is validated, stamped and inserted.  [None] is a
    rejected save (a ValidationError is thrown). *)
Definition save (oid : nat) (now : Z) (p : string) (c r k : Q) (o : string)
  (u : Q) (db : Collection) : option (SystemInfo * Collection) :=
  let d := {| _id := oid; pcId := JS.trim p; cpu := c; ram := r; disk := k;
              os := o; uptime := u; createdAt := now |} in
  if schema_valid d then Some (d, (db ++ [d])%list) else None.

(** POST [/]; [oid] is the ObjectId generated for the new document. *)
Definition post_systemdata (body : PostBody) (oid : nat) (now : Z)
  (db : Collection) : PostResponse * Collection :=
  if JS.falsy (body_pcId body) || JS.undefined (body_cpu body)
     || JS.undefined (body_ram body) || JS.undefined (body_disk body)
     || JS.falsy (body_os body) || JS.undefined (body_uptime body)
  then (PostBadRequest missing_fields_message, db)
  else
    match body_pcId body, body_cpu body, body_ram body, body_disk body,
          body_os body, body_uptime body with
    | Some p, Some c, Some r, Some k, Some o, Some u =>
        if Qltb c 0 || Qltb 100 c || Qltb r 0 || Qltb 100 r
           || Qltb k 0 || Qltb 100 k || Qltb u 0
        then (PostBadRequest invalid_ranges_message, db)
        else
          match save oid now p c r k o u db with
          | Some (d, db') => (PostCreated (_id d) (pcId d) (createdAt d), db')
          | None => (PostError "Internal server error", db)
          end
    | _, _, _, _, _, _ => (PostBadRequest missing_fields_message, db)
    end.

(** [const { hours = 24 } = req.query; parseInt(hours)] *)
Definition hours_param (q : option string) : option Z :=
  JS.parseInt (match q with Some s => s | None => JS.toString 24 end).

Inductive GetResponse :=
| GetBadRequest (message : string)
| GetOne (pc : string) (latest : option SystemInfo)
         (historical : list SystemInfo) (timeRange : string)
| GetAll (latest : list SystemInfo) (overview : Overview) (timeRange : string).

Definition get_status (r : GetResponse) : Z :=
  match r with
  | GetBadRequest _ => 400
  | _ => 200
  end.

Definition no_overview : Overview :=
  {| avgCpu := 0; avgRam := 0; avgDisk := 0; totalPCs := 0 |}.

(** GET [/] with the query parameters [pcId] and [hours]. *)
Definition get_systemdata (q_pcId q_hours : option string) (now : Z)
  (db : Collection) : GetResponse :=
  match hours_param q_hours with
  | None => GetBadRequest "Invalid hours parameter (1-168)"
  | Some hoursNum =>
      if (hoursNum <? 1) || (168 <? hoursNum)
      then GetBadRequest "Invalid hours parameter (1-168)"
      else
        let all :=
          GetAll (getLatestData db)
                 (hd no_overview (getOverviewStats now db))
                 "24 hours" in
        match q_pcId with
        | Some p =>
            if negb (JS.falsy q_pcId)
            then GetOne p (findOne_latest p db)
                        (getHistoricalData p hoursNum now db)
                        (JS.toString hoursNum ++ " hours")%string
            else all
        | None => all
        end
  end.

(** GET [/pcs]: the data and its [count]. *)
Definition get_pcs (db : Collection) : list SystemInfo * nat :=
  let pcs := getLatestData db in (pcs, List.length pcs).

Inductive CleanupResponse :=
| CleanupOk (deletedCount : nat)
| CleanupBadRequest (message : string)
| CleanupError (message : string).

Definition cleanup_status (r : CleanupResponse) : Z :=
  match r with
  | CleanupOk _ => 200
  | CleanupBadRequest _ => 400
  | CleanupError _ => 500
  end.

(** A member of the model can be called when the schema defines it. *)
Definition has_static (name : string) : bool :=
  existsb (String.eqb name) systemInfoSchema_statics.

(** DELETE [/cleanup].  The handler calls [SystemInfo.cleanupOldData]
    inside its [try]; calling a member that is not defined throws a
    TypeError, which the [catch] turns into the 500 response. *)
Definition delete_cleanup (q_hours : option string) (now : Z)
  (db : Collection) : CleanupResponse * Collection :=
  match hours_param q_hours with
  | None => (CleanupBadRequest "Invalid hours parameter", db)
  | Some hoursNum =>
      if hoursNum <? 1
      then (CleanupBadRequest "Invalid hours parameter", db)
      else if has_static "cleanupOldData"
      then let '(n, db') := purgeOlderThan hoursNum now db in
           (CleanupOk n, db')
      else (CleanupError "Internal server error", db)
  end.

(** ** The specification's vocabulary

    Definitions that follow the words of the specification; the theorems
    below compare them with the code above. *)

(** [allWithinWindow(h)]: the Samples recorded within the last [h] hours. *)
Definition allWithinWindow (h : Z) (now : Z) (db : Collection) : Collection :=
  filter (fun d => now - h * ms_per_hour <=? createdAt d) db.

Definition Qsum (xs : list Q) : Q := fold_right Qplus 0%Q xs.

(** Arithmetic mean of a non-empty list. *)
Definition arithmetic_mean (xs : list Q) : Q :=
  (Qsum xs / inject_Z (Z.of_nat (List.length xs)))%Q.

(** Number of distinct machine identities among the given Samples. *)
Definition distinct_pcIds (w : list SystemInfo) : nat :=
  List.length (nodup string_dec (map pcId w)).

(** The Overview the specification derives from a set of Samples. *)
Definition overview_over (w : list SystemInfo) : Overview :=
  match w with
  | [] => no_overview
  | _ =>
      {| avgCpu := round2 (arithmetic_mean (map cpu w));
         avgRam := round2 (arithmetic_mean (map ram w));
         avgDisk := round2 (arithmetic_mean (map disk w));
         totalPCs := distinct_pcIds w |}
  end.

(** The overview carried by a response, if it has one. *)
Definition response_overview (r : GetResponse) : option Overview :=
  match r with
  | GetAll _ o _ => Some o
  | _ => None
  end.

(** Among the elements that satisfy [P], the one the order puts first;
    between equals, the one the list holds first. *)
Fixpoint first_best {A : Type} (leb : A -> A -> bool) (P : A -> bool)
  (l : list A) : option A :=
  match l with
  | [] => None
  | x :: r =>
      if P x then
        match first_best leb P r with
        | Some w => if leb x w then Some x else Some w
        | None => Some x
        end
      else first_best leb P r
  end.

(** ** The agent ([client.js])

    The monitoring client: its configuration, the sending of one Sample
    with retries, and the test that stops it when the server stays out of
    reach.  The world outside the agent (the network with the collector
    behind it, the timers, the clock) is a parameter: [post] is
    [axios.post(CONFIG.SERVER_URL, data, ...)], [sleep] is the awaited
    [setTimeout], [dateNow] is [Date.now()]. *)

Module Agent.

Record Config := mkConfig {
  COLLECTION_INTERVAL : Z;
  MAX_RETRIES : Z;
  RETRY_DELAY : Z;
  MAX_OFFLINE_TIME : Z
}.

(** [parseInt(process.env.NAME) || default]: NaN and 0 are falsy. *)
Definition env_int (v : option string) (default : Z) : Z :=
  match JS.parseInt (match v with Some s => s | None => "undefined" end) with
  | Some 0 => default
  | Some z => z
  | None => default
  end.

(** [CONFIG], the numeric part. *)
Definition config_of_env (env : string -> option string) : Config :=
  {| COLLECTION_INTERVAL := env_int (env "COLLECTION_INTERVAL") 60000;
     MAX_RETRIES := env_int (env "MAX_RETRIES") 3;
     RETRY_DELAY := env_int (env "RETRY_DELAY") 5000;
     MAX_OFFLINE_TIME := env_int (env "MAX_OFFLINE_TIME") 300000 |}.

(** The global state that sending touches. *)
Record State := mkState {
  retryCount : Z;
  lastSuccessfulSend : Z
}.

(** What [await axios.post(...)] gives: a response with its status, or a
    rejection (network error, timeout, status outside 2xx). *)
Inductive Reply :=
| Resolved (status : Z)
| Rejected.

(** [response.status === 200 || response.status === 201] *)
Definition accepted (r : Reply) : bool :=
  match r with
  | Resolved status => (status =? 200) || (status =? 201)
  | Rejected => false
  end.

(** What one call did to the outside, in order. *)
Inductive Event :=
| Posted (r : Reply)
| Slept (delay : Z).

(** How [sendDataToServer] ends: it returns [true], returns [false], or
    throws (reading [lastError.message] when [lastError] is [null]). *)
Inductive Ending :=
| ReturnsTrue
| ReturnsFalse
| Throws.

Section Sending.
Context {World : Type}.
Variable post : World -> Reply * World.
Variable sleep : Z -> World -> World.
Variable dateNow : World -> Z.
Variable CONFIG : Config.

Record Outcome := mkOutcome {
  ending : Ending;
  state : State;
  world : World;
  events : list Event
}.

(** After the loop: [retryCount++], then the log line that reads
    [lastError.message]. *)
Definition loop_exit (lastError : option Reply) (st : State) (w : World)
  : Outcome :=
  {| ending := match lastError with
               | Some _ => ReturnsFalse
               | None => Throws
               end;
     state := {| retryCount := retryCount st + 1;
                 lastSuccessfulSend := lastSuccessfulSend st |};
     world := w;
     events := [] |}.

(** The [for] loop from [attempt] on; [fuel] bounds the iterations left. *)
Fixpoint attempts (fuel : nat) (attempt : Z) (lastError : option Reply)
  (st : State) (w : World) : Outcome :=
  match fuel with
  | O => loop_exit lastError st w
  | S fuel' =>
      if attempt <=? MAX_RETRIES CONFIG then
        let '(r, w1) := post w in
        if accepted r then
          {| ending := ReturnsTrue;
             state := {| retryCount := 0; lastSuccessfulSend := dateNow w1 |};
             world := w1;
             events := [Posted r] |}
        else if attempt <? MAX_RETRIES CONFIG then
          let delay := RETRY_DELAY CONFIG * attempt in
          let o := attempts fuel' (attempt + 1) (Some r) st (sleep delay w1) in
          {| ending := ending o; state := state o; world := world o;
             events := Posted r :: Slept delay :: events o |}
        else
          let o := attempts fuel' (attempt + 1) (Some r) st w1 in
          {| ending := ending o; state := state o; world := world o;
             events := Posted r :: events o |}
      else loop_exit lastError st w
  end.

(** [sendDataToServer(data)]; the loop runs at most [MAX_RETRIES] times. *)
Definition sendDataToServer (st : State) (w : World) : Outcome :=
  attempts (Z.to_nat (MAX_RETRIES CONFIG)) 1 None st w.

(** [shouldContinueRunning()] *)
Definition shouldContinueRunning (st : State) (w : World) : bool :=
  negb (MAX_OFFLINE_TIME CONFIG <? dateNow w - lastSuccessfulSend st).

End Sending.

Section Monitoring.
Context {World Data : Type}.
Variable getSystemInfo : World -> option Data * World.
Variable post : Data -> World -> Reply * World.
Variable sleep : Z -> World -> World.
Variable dateNow : World -> Z.
Variable CONFIG : Config.

(** One run of [monitorSystem] while [isRunning] holds, up to its last
    [if]: it samples the system and sends the Sample; an exception of
    [getSystemInfo] ([None]) or of [sendDataToServer] is caught and
    logged. *)
Definition cycle (st : State) (w : World) : State * World :=
  match getSystemInfo w with
  | (Some data, w1) =>
      let o := sendDataToServer (post data) sleep dateNow CONFIG st w1 in
      (state o, world o)
  | (None, w1) => (st, w1)
  end.

(** [monitorSystem] rearming itself with [setTimeout] until it calls
    [process.exit(1)]: the number of runs it made, and the state and the
    world at the exit.  No signal arrives meanwhile; [fuel] bounds the
    runs. *)
Fixpoint monitor (fuel : nat) (st : State) (w : World)
  : option (nat * State * World) :=
  match fuel with
  | O => None
  | S fuel' =>
      let '(st1, w1) := cycle st w in
      if shouldContinueRunning dateNow CONFIG st1 w1 then
        match monitor fuel' st1 (sleep (COLLECTION_INTERVAL CONFIG) w1) with
        | Some (n, st2, w2) => Some (S n, st2, w2)
        | None => None
        end
      else Some (1%nat, st1, w1)
  end.

End Monitoring.

(** The events of a call that posted and got [replies] in turn: a sleep of
    [delay * attempt] between two posts, none after the last. *)
Fixpoint schedule (delay : Z) (attempt : Z) (replies : list Reply)
  : list Event :=
  match replies with
  | [] => []
  | [r] => [Posted r]
  | r :: rest =>
      Posted r :: Slept (delay * attempt) :: schedule delay (attempt + 1) rest
  end.

(** Total of the sleeps of a list of events. *)
Fixpoint slept (es : list Event) : Z :=
  match es with
  | [] => 0
  | Slept d :: r => d + slept r
  | Posted _ :: r => slept r
  end.

End Agent.

(** ** The agent facing the collector

    A world for the agent made of the collector above: the agent's POST
    goes to [post_systemdata]; axios resolves on the 201 and rejects on
    the 400 and the 500.  A timer of [setTimeout] lasts its delay, or one
    millisecond when the delay is below 1 or above 2147483647. *)

Record Site := mkSite {
  collection : Collection;
  clock : Z;
  nextId : nat
}.

Definition site_post (body : PostBody) (w : Site) : Agent.Reply * Site :=
  let '(resp, db') :=
    post_systemdata body (nextId w) (clock w) (collection w) in
  (match resp with
   | PostCreated _ _ _ => Agent.Resolved (post_status resp)
   | _ => Agent.Rejected
   end,
   {| collection := db'; clock := clock w; nextId := S (nextId w) |}).

Definition site_sleep (delay : Z) (w : Site) : Site :=
  {| collection := collection w;
     clock := clock w
              + (if (delay <? 1) || (2147483647 <? delay) then 1 else delay);
     nextId := nextId w |}.

(** The replies among the events. *)
Fixpoint posted (es : list Agent.Event) : list Agent.Reply :=
  match es with
  | [] => []
  | Agent.Posted r :: rest => r :: posted rest
  | Agent.Slept _ :: rest => posted rest
  end.

(** [retryCount++] *)
Definition bumped (st : Agent.State) : Agent.State :=
  {| Agent.retryCount := Agent.retryCount st + 1;
     Agent.lastSuccessfulSend := Agent.lastSuccessfulSend st |}.

(** A body with [cpu = 101], which the collector rejects. *)
Definition overloaded_body : PostBody :=
  mkPostBody (Some "PC-1") (Some 101%Q) (Some 50%Q) (Some 50%Q)
             (Some "Linux") (Some 10%Q).

(** ** The dashboard ([utils/api.js], [PCCard.js], [OverviewChart.js])

    The data processing of the front end.  A label made by
    [toLocaleTimeString] is kept as the date it is made from. *)

Module Dashboard.

(** [Math.trunc], as [%] uses it. *)
Definition trunc (q : Q) : Z :=
  if Qle_bool 0 q then Qfloor q else Qceiling q.

(** [a % m] on numbers. *)
Definition rem (a m : Q) : Q := (a - m * inject_Z (trunc (a / m)))%Q.

(** The three numbers [formatUptime] prints: days, hours, minutes. *)
Definition uptime_parts (seconds : Q) : Z * Z * Z :=
  (Qfloor (seconds / 86400),
   Qfloor (rem seconds 86400 / 3600),
   Qfloor (rem seconds 3600 / 60)).

(** [dataUtils.formatUptime(seconds)]; [None] is [undefined] or [null]. *)
Definition formatUptime (seconds : option Q) : string :=
  match seconds with
  | None => "Unknown"
  | Some s =>
      if Qeq_bool s 0 || Qltb s 0 then "Unknown"
      else
        let '(days, hours, minutes) := uptime_parts s in
        if 0 <? days then
          (JS.toString days ++ "d " ++ JS.toString hours ++ "h "
           ++ JS.toString minutes ++ "m")%string
        else if 0 <? hours then
          (JS.toString hours ++ "h " ++ JS.toString minutes ++ "m")%string
        else (JS.toString minutes ++ "m")%string
  end.

(** [dataUtils.calculateAverage(values)] on an array of numbers. *)
Definition calculateAverage (values : list Q) : Q :=
  match values with
  | [] => 0
  | _ =>
      (fold_left (fun acc val => acc + val) values 0
       / inject_Z (Z.of_nat (List.length values)))%Q
  end.

(** A point of the line chart of a card. *)
Record ChartPoint := mkChartPoint {
  time : Z;
  point_cpu : Q;
  point_ram : Q;
  point_disk : Q
}.

Definition chart_point (item : SystemInfo) : ChartPoint :=
  {| time := createdAt item; point_cpu := cpu item; point_ram := ram item;
     point_disk := disk item |}.

(** [array.slice(-n)] *)
Definition slice_last {A : Type} (n : nat) (l : list A) : list A :=
  skipn (List.length l - n) l.

(** [chartData] of [PCCard]: [historicalData.map(...).slice(-20)]. *)
Definition chartData (historicalData : list SystemInfo) : list ChartPoint :=
  slice_last 20 (map chart_point historicalData).

(** The names [PCCard.js] binds: its imports, the component with its
    parameters, and the constants of the component. *)
Definition PCCard_names : list string :=
  ["React"; "useState"; "useEffect"; "useCallback";
   "LineChart"; "Line"; "XAxis"; "YAxis"; "CartesianGrid"; "Tooltip";
   "ResponsiveContainer"; "PieChart"; "Pie"; "Cell";
   "systemDataAPI"; "dataUtils"; "PCCard"; "pcId"; "latestData";
   "historicalData"; "setHistoricalData"; "lastUpdate"; "setLastUpdate";
   "fetchHistoricalData"; "chartData"; "makeUsage"].

(** A name can be used when the file binds it; using another one throws
    a ReferenceError. *)
Definition PCCard_binds (name : string) : bool :=
  existsb (String.eqb name) PCCard_names.

(** The state of a card: [useState([])] and [useState(null)]. *)
Record CardState := mkCardState {
  historicalData : list SystemInfo;
  lastUpdate : option Z
}.

Definition PCCard_initial : CardState :=
  {| historicalData := []; lastUpdate := None |}.

(** What awaiting [systemDataAPI.getData] gives: the body of the answer,
    with its [success] and its [data.historical] ([None] when it has
    none), or an error thrown. *)
Inductive ApiResult :=
| ApiBody (success : bool) (historical : option (list SystemInfo))
| ApiThrows (message : string).

Inductive Completion :=
| Completes
| Throws (error : string).

(** [fetchHistoricalData] of [PCCard], with the request answered by
    [result] at date [now].  [setLoading] and [setError] are called
    before the [try]. *)
Definition fetchHistoricalData (pcId : option string) (result : ApiResult)
  (now : Z) (st : CardState) : Completion * CardState :=
  if JS.falsy pcId then (Completes, st)
  else if negb (PCCard_binds "setLoading")
  then (Throws "ReferenceError: setLoading is not defined", st)
  else if negb (PCCard_binds "setError")
  then (Throws "ReferenceError: setError is not defined", st)
  else
    match result with
    | ApiBody true historical =>
        (Completes,
         {| historicalData :=
              match historical with Some l => l | None => [] end;
            lastUpdate := Some now |})
    | ApiBody false _ => (Completes, st)
    | ApiThrows _ => (Completes, st)
    end.

(** The card after the calls of [fetchHistoricalData] that [useEffect]
    makes, one when the card is mounted and one every 30 seconds, each
    with the answer its request would get and its date. *)
Definition card_after (pcId : option string) (rounds : list (ApiResult * Z))
  : CardState :=
  fold_left
    (fun st round =>
       snd (fetchHistoricalData pcId (fst round) (snd round) st))
    rounds PCCard_initial.

(** An entry of [hourlyAverages]. *)
Record HourPoint := mkHourPoint {
  hour : Z;
  hour_cpu : Q;
  hour_ram : Q;
  hour_disk : Q
}.

(** [pcsInHour] for the index [i] of the loop. *)
Definition pcsInHour (now : Z) (pcData : list SystemInfo) (i : Z)
  : list SystemInfo :=
  let hourStart := now - i * 60 * 60 * 1000 in
  let hourEnd := now - (i - 1) * 60 * 60 * 1000 in
  filter (fun pc => (hourStart <=? createdAt pc) && (createdAt pc <? hourEnd))
         pcData.

(** The body of the loop of [calculateHourlyAverages] for the index [i]:
    what it pushes. *)
Definition hourly_entry (now : Z) (pcData : list SystemInfo) (i : Z)
  : list HourPoint :=
  match pcsInHour now pcData i with
  | [] => []
  | inHour =>
      [ {| hour := now - i * 60 * 60 * 1000;
           hour_cpu := calculateAverage (map cpu inHour);
           hour_ram := calculateAverage (map ram inHour);
           hour_disk := calculateAverage (map disk inHour) |} ]
  end.

(** The indices of the loop [for (let i = 23; i >= 0; i--)], in order. *)
Definition hours_back : list Z := map Z.of_nat (List.rev (seq 0 24)).

(** [calculateHourlyAverages(pcData)] at [new Date() = now]. *)
Definition calculateHourlyAverages (now : Z) (pcData : list SystemInfo)
  : list HourPoint :=
  flat_map (hourly_entry now pcData) hours_back.

End Dashboard.

(** ** Reading decimal numerals

    Vocabulary for the facts about [parseInt]. *)

(** Value of a decimal numeral read from the left, starting from [acc]. *)
Fixpoint uint_val (d : Decimal.uint) (acc : Z) : Z :=
  match d with
  | Nil => acc
  | D0 r => uint_val r (10 * acc)
  | D1 r => uint_val r (10 * acc + 1)
  | D2 r => uint_val r (10 * acc + 2)
  | D3 r => uint_val r (10 * acc + 3)
  | D4 r => uint_val r (10 * acc + 4)
  | D5 r => uint_val r (10 * acc + 5)
  | D6 r => uint_val r (10 * acc + 6)
  | D7 r => uint_val r (10 * acc + 7)
  | D8 r => uint_val r (10 * acc + 8)
  | D9 r => uint_val r (10 * acc + 9)
  end.

(** [rest] does not go on with a decimal digit. *)
Definition stops_digits (rest : string) : Prop :=
  match rest with
  | EmptyString => True
  | String c _ => JS.digit_val 10 c = None
  end.

(** The number read so far, 0 before the first digit. *)
Definition acc_val (acc : option Z) : Z :=
  match acc with Some a => a | None => 0 end.

(** The part of [parseInt] after the sign. *)
Definition unsigned_part (s : string) : option Z :=
  let '(radix, s3) :=
    match s with
    | String "0" (String "x" r) => (16, r)
    | String "0" (String "X" r) => (16, r)
    | _ => (10, s)
    end in
  JS.digits radix s3 None.

(** What may follow the numeral of [z] without changing what [parseInt]
    reads: nothing, or text that starts with no decimal digit and, after
    a lone ["0"], with no ["x"]. *)
Definition suffix_ok (z : Z) (rest : string) : Prop :=
  match rest with
  | EmptyString => True
  | String c _ =>
      JS.digit_val 10 c = None /\ (z = 0 -> c <> "x"%char /\ c <> "X"%char)
  end.

(** ** Sample data for the examples *)

(** Two Samples of one machine stamped with the same date. *)
Definition tie_first : SystemInfo :=
  {| _id := 0; pcId := "PC-1"; cpu := 10; ram := 10; disk := 10;
     os := "Linux"; uptime := 60; createdAt := 1000 |}.

Definition tie_second : SystemInfo :=
  {| _id := 1; pcId := "PC-1"; cpu := 20; ram := 20; disk := 20;
     os := "Linux"; uptime := 90; createdAt := 1000 |}.

(** A machine with a Sample at date 0 and one an hour later, and a second
    machine. *)
Definition old_sample : SystemInfo :=
  {| _id := 7; pcId := "PC-1"; cpu := 50; ram := 40; disk := 30;
     os := "Linux"; uptime := 3600; createdAt := 0 |}.

Definition new_sample : SystemInfo :=
  {| _id := 8; pcId := "PC-1"; cpu := 60; ram := 45; disk := 30;
     os := "Linux"; uptime := 7200; createdAt := 3600000 |}.

Definition other_sample : SystemInfo :=
  {| _id := 9; pcId := "PC-2"; cpu := 5; ram := 5; disk := 5;
     os := "Windows"; uptime := 10; createdAt := 5400000 |}.

(** Three machines with cpu 10, 20 and 30. *)
Definition cpu10 : SystemInfo :=
  {| _id := 1; pcId := "A"; cpu := 10; ram := 50; disk := 25 # 2;
     os := "Linux"; uptime := 1; createdAt := 1000 |}.

Definition cpu20 : SystemInfo :=
  {| _id := 2; pcId := "B"; cpu := 20; ram := 60; disk := 25 # 2;
     os := "Linux"; uptime := 1; createdAt := 2000 |}.

Definition cpu30 : SystemInfo :=
  {| _id := 3; pcId := "C"; cpu := 30; ram := 70; disk := 25 # 2;
     os := "Linux"; uptime := 1; createdAt := 3000 |}.

(** U+00A0, the no-break space, as its two bytes. *)
Definition no_break_space : string := String "194" (String "160" "").

(** A body whose [pcId] is a no-break space and nothing else. *)
Definition blank_body : PostBody :=
  mkPostBody (Some no_break_space) (Some 50%Q) (Some 50%Q) (Some 50%Q)
             (Some "Linux") (Some 10%Q).

(** A body whose percentages sit on the bounds. *)
Definition boundary_body : PostBody :=
  mkPostBody (Some "PC-1") (Some 0%Q) (Some 100%Q) (Some 0%Q)
             (Some "Linux") (Some 0%Q).

(** What the schema asks of a document, as a proposition. *)
Definition within_schema (d : SystemInfo) : Prop :=
  pcId d <> "" /\ os d <> "" /\
  (0 <= cpu d <= 100 /\ 0 <= ram d <= 100 /\ 0 <= disk d <= 100 /\
   0 <= uptime d)%Q.

(** The document that POST stores for [boundary_body] with ObjectId 12 at
    date 5000. *)
Definition posted_sample : SystemInfo :=
  {| _id := 12; pcId := "PC-1"; cpu := 0; ram := 100; disk := 0;
     os := "Linux"; uptime := 0; createdAt := 5000 |}.

(** * Facts about the sort *)

Section SortFacts.
Context {A : Type}.
Variable leb : A -> A -> bool.

Let le (a b : A) : Prop := leb a b = true.

Lemma insert_sorted_perm (x : A) (l : list A) :
  Permutation (insert_sorted leb x l) (x :: l).
Proof.
  induction l as [|y r IH]; simpl.
  - apply Permutation_refl.
  - destruct (leb x y).
    + apply Permutation_refl.
    + eapply perm_trans; [apply perm_skip, IH | apply perm_swap].
Qed.

Lemma sort_by_perm (l : list A) : Permutation (sort_by leb l) l.
Proof.
  induction l as [|x r IH]; simpl.
  - constructor.
  - eapply perm_trans; [apply insert_sorted_perm | now apply perm_skip].
Qed.

Lemma sort_by_In (l : list A) (x : A) : In x (sort_by leb l) <-> In x l.
Proof.
  split; apply Permutation_in;
    [apply sort_by_perm | apply Permutation_sym, sort_by_perm].
Qed.

Lemma find_insert_sorted_skip (P : A -> bool) (x : A) (l : list A) :
  P x = false -> find P (insert_sorted leb x l) = find P l.
Proof.
  intros Hx. induction l as [|y r IH]; simpl.
  - now rewrite Hx.
  - destruct (leb x y); simpl.
    + now rewrite Hx.
    + now rewrite IH.
Qed.

Hypothesis leb_total : forall a b, leb a b = true \/ leb b a = true.
Hypothesis leb_trans :
  forall a b c, leb a b = true -> leb b c = true -> leb a c = true.

Lemma leb_refl (a : A) : leb a a = true.
Proof. now destruct (leb_total a a). Qed.

Lemma insert_sorted_sorted (x : A) (l : list A) :
  StronglySorted le l -> StronglySorted le (insert_sorted leb x l).
Proof.
  induction 1 as [|y r Hr IH Hy]; simpl.
  - repeat constructor.
  - destruct (leb x y) eqn:E.
    + constructor; [now constructor|].
      constructor; [exact E|].
      eapply Forall_impl; [|exact Hy].
      intros z Hz. exact (leb_trans _ _ _ E Hz).
    + constructor; [exact IH|].
      assert (Hyx : le y x)
        by (destruct (leb_total x y); [congruence|assumption]).
      eapply Permutation_Forall;
        [apply Permutation_sym, insert_sorted_perm|].
      now constructor.
Qed.

Lemma sort_by_sorted (l : list A) : StronglySorted le (sort_by leb l).
Proof.
  induction l as [|x r IH]; simpl.
  - constructor.
  - now apply insert_sorted_sorted.
Qed.

(** In a sorted list the first element that satisfies [P] comes, in the
    order, before every other one that does. *)
Lemma find_sorted_least (P : A -> bool) (l : list A) (e : A) :
  StronglySorted le l -> find P l = Some e ->
  forall y, In y l -> P y = true -> leb e y = true.
Proof.
  induction 1 as [|x r Hr IH Hx]; simpl; [discriminate|].
  intros Hf y Hy Py. destruct (P x) eqn:Px.
  - injection Hf as <-. destruct Hy as [<-|Hy]; [apply leb_refl|].
    rewrite Forall_forall in Hx. now apply Hx.
  - destruct Hy as [<-|Hy]; [congruence|]. now apply IH.
Qed.

Lemma find_insert_sorted_hit (P : A -> bool) (x : A) (l : list A) :
  StronglySorted le l -> P x = true ->
  find P (insert_sorted leb x l) =
  match find P l with
  | Some w => if leb x w then Some x else Some w
  | None => Some x
  end.
Proof.
  intros Hs Px. induction Hs as [|y r Hr IH Hy]; simpl.
  - now rewrite Px.
  - destruct (leb x y) eqn:E; simpl.
    + rewrite Px. destruct (P y) eqn:Py.
      * now rewrite E.
      * destruct (find P r) as [w|] eqn:Fw; [|reflexivity].
        apply find_some in Fw. destruct Fw as [Hw _].
        rewrite Forall_forall in Hy.
        now rewrite (leb_trans _ _ _ E (Hy _ Hw)).
    + destruct (P y) eqn:Py.
      * now rewrite E.
      * exact IH.
Qed.

(** The sort is stable: what [find] meets first in the sorted list is
    what [first_best] picks in the original one. *)
Lemma find_sort_by (P : A -> bool) (l : list A) :
  find P (sort_by leb l) = first_best leb P l.
Proof.
  induction l as [|x r IH]; simpl; [reflexivity|].
  destruct (P x) eqn:Px.
  - rewrite find_insert_sorted_hit by (apply sort_by_sorted || exact Px).
    now rewrite IH.
  - now rewrite find_insert_sorted_skip, IH.
Qed.

Lemma first_best_none (P : A -> bool) (l : list A) :
  first_best leb P l = None -> forall y, In y l -> P y = false.
Proof.
  induction l as [|x r IH]; simpl; [contradiction|].
  intros H y [<-|Hy].
  - destruct (P x); [|reflexivity].
    destruct (first_best leb P r); [destruct (leb x a)|]; discriminate.
  - apply IH; [|exact Hy].
    destruct (P x); [|exact H].
    destruct (first_best leb P r); [destruct (leb x a)|]; discriminate.
Qed.

(** What [first_best] returns: it satisfies [P], nothing before it in the
    list is as good, nothing after it is better. *)
Lemma first_best_spec (P : A -> bool) (l : list A) (m : A) :
  first_best leb P l = Some m ->
  exists l1 l2,
    l = l1 ++ m :: l2 /\ P m = true /\
    (forall y, In y l1 -> P y = true -> leb y m = false) /\
    (forall y, In y l2 -> P y = true -> leb m y = true).
Proof.
  revert m. induction l as [|x r IH]; simpl; [discriminate|].
  intros m H. destruct (P x) eqn:Px.
  - destruct (first_best leb P r) as [w|] eqn:Fw.
    + destruct (IH w eq_refl) as (l1 & l2 & -> & Pw & Hb & Ha).
      destruct (leb x w) eqn:E; injection H as <-.
      * exists [], (l1 ++ w :: l2). repeat split; [exact Px|contradiction|].
        intros y Hy Py. apply in_app_or in Hy.
        destruct Hy as [Hy|[<-|Hy]].
        -- destruct (leb_total y w) as [C|C];
             [now rewrite (Hb y Hy Py) in C|].
           exact (leb_trans _ _ _ E C).
        -- exact E.
        -- exact (leb_trans _ _ _ E (Ha y Hy Py)).
      * exists (x :: l1), l2. repeat split; [exact Pw| |exact Ha].
        intros y [<-|Hy] Py; [exact E|now apply Hb].
    + injection H as <-. exists [], r.
      repeat split; [exact Px|contradiction|].
      intros y Hy Py. now rewrite (first_best_none P r Fw y Hy) in Py.
  - destruct (IH m H) as (l1 & l2 & -> & Pm & Hb & Ha).
    exists (x :: l1), l2. repeat split; [exact Pm| |exact Ha].
    intros y [<-|Hy] Py; [congruence|now apply Hb].
Qed.

End SortFacts.

(** * The three sort orders are total preorders *)

Lemma string_compare_refl (s : string) : String_as_OT.compare s s = Eq.
Proof.
  destruct (String_as_OT.compare_spec s s) as [_|H|H]; [reflexivity| |];
    exfalso; exact (StrictOrder_Irreflexive s H).
Qed.

Lemma string_compare_Lt_Gt (s t : string) :
  String_as_OT.compare s t = Gt -> String_as_OT.compare t s = Lt.
Proof.
  intros H. destruct (String_as_OT.compare_spec s t) as [_|_|L];
    try discriminate. exact L.
Qed.

Lemma string_compare_eq (s t : string) :
  String_as_OT.compare s t = Eq -> s = t.
Proof.
  intros H. destruct (String_as_OT.compare_spec s t) as [E|_|_];
    try discriminate. exact E.
Qed.

Lemma pcId_asc_createdAt_desc_total (a b : SystemInfo) :
  pcId_asc_createdAt_desc a b = true \/ pcId_asc_createdAt_desc b a = true.
Proof.
  unfold pcId_asc_createdAt_desc.
  destruct (String_as_OT.compare (pcId a) (pcId b)) eqn:E.
  - apply string_compare_eq in E. rewrite E, string_compare_refl. lia.
  - now left.
  - right. now rewrite (string_compare_Lt_Gt _ _ E).
Qed.

Lemma pcId_asc_createdAt_desc_trans (a b c : SystemInfo) :
  pcId_asc_createdAt_desc a b = true -> pcId_asc_createdAt_desc b c = true ->
  pcId_asc_createdAt_desc a c = true.
Proof.
  unfold pcId_asc_createdAt_desc.
  destruct (String_as_OT.compare_spec (pcId a) (pcId b)) as [E1|L1|G1];
    [| |discriminate];
    (destruct (String_as_OT.compare_spec (pcId b) (pcId c)) as [E2|L2|G2];
     [| |discriminate]); intros H1 H2.
  - rewrite E1, E2, string_compare_refl. lia.
  - rewrite E1. unfold String_as_OT.lt in L2. now rewrite L2.
  - rewrite <- E2. unfold String_as_OT.lt in L1. now rewrite L1.
  - assert (L : String_as_OT.lt (pcId a) (pcId c))
      by (eapply StrictOrder_Transitive; eassumption).
    unfold String_as_OT.lt in L. now rewrite L.
Qed.

(** Within one machine the order is by date, newest first. *)
Lemma pcId_asc_createdAt_desc_same (a b : SystemInfo) :
  pcId a = pcId b ->
  pcId_asc_createdAt_desc a b = (createdAt b <=? createdAt a).
Proof.
  intros E. unfold pcId_asc_createdAt_desc.
  now rewrite E, string_compare_refl.
Qed.

Lemma createdAt_desc_total (a b : SystemInfo) :
  createdAt_desc a b = true \/ createdAt_desc b a = true.
Proof. unfold createdAt_desc. lia. Qed.

Lemma createdAt_desc_trans (a b c : SystemInfo) :
  createdAt_desc a b = true -> createdAt_desc b c = true ->
  createdAt_desc a c = true.
Proof. unfold createdAt_desc. lia. Qed.

Lemma createdAt_asc_total (a b : SystemInfo) :
  createdAt_asc a b = true \/ createdAt_asc b a = true.
Proof. unfold createdAt_asc. lia. Qed.

Lemma createdAt_asc_trans (a b c : SystemInfo) :
  createdAt_asc a b = true -> createdAt_asc b c = true ->
  createdAt_asc a c = true.
Proof. unfold createdAt_asc. lia. Qed.

(** * Facts about [$group] with [$first] *)

Lemma existsb_eqb_In (p : string) (seen : list string) :
  existsb (String.eqb p) seen = true <-> In p seen.
Proof.
  rewrite existsb_exists. split.
  - intros (x & Hx & E). apply String.eqb_eq in E. now subst.
  - intros H. exists p. split; [exact H|apply String.eqb_refl].
Qed.

Lemma existsb_eqb_not_In (p : string) (seen : list string) :
  existsb (String.eqb p) seen = false <-> ~ In p seen.
Proof.
  rewrite <- existsb_eqb_In. now destruct (existsb (String.eqb p) seen).
Qed.

Lemma group_first_In (docs : list SystemInfo) :
  forall seen e, In e (group_first docs seen) ->
                 In e docs /\ ~ In (pcId e) seen.
Proof.
  induction docs as [|d r IH]; simpl; [contradiction|].
  intros seen e H. destruct (existsb (String.eqb (pcId d)) seen) eqn:S.
  - destruct (IH _ _ H). auto.
  - destruct H as [<-|H].
    + split; [now left|now apply existsb_eqb_not_In].
    + destruct (IH _ _ H) as [H1 H2]. split; [now right|].
      intros C. apply H2. now right.
Qed.

Lemma group_first_keys (docs : list SystemInfo) :
  forall seen p, In p (map pcId (group_first docs seen)) <->
                 In p (map pcId docs) /\ ~ In p seen.
Proof.
  induction docs as [|d r IH]; simpl; [tauto|].
  intros seen p. destruct (existsb (String.eqb (pcId d)) seen) eqn:S.
  - rewrite IH. apply existsb_eqb_In in S. split.
    + intros [H1 H2]. auto.
    + intros [[<-|H1] H2]; [contradiction|auto].
  - apply existsb_eqb_not_In in S. simpl. rewrite IH. simpl. split.
    + intros [<-|[H1 H2]]; [auto|]. split; [auto|].
      intros C. apply H2. now right.
    + intros [[E|H1] H2]; [now left|].
      destruct (string_dec (pcId d) p) as [E|N]; [now left|right].
      split; [exact H1|]. intros [C|C]; contradiction.
Qed.

Lemma group_first_NoDup (docs : list SystemInfo) :
  forall seen, NoDup (map pcId (group_first docs seen)).
Proof.
  induction docs as [|d r IH]; simpl; [constructor|].
  intros seen. destruct (existsb (String.eqb (pcId d)) seen); [apply IH|].
  simpl. constructor; [|apply IH].
  rewrite group_first_keys. intros [_ C]. apply C. now left.
Qed.

(** The entry of a group is the first document of the stream with its key. *)
Lemma group_first_find (docs : list SystemInfo) :
  forall seen e, In e (group_first docs seen) ->
                 find (has_pcId (pcId e)) docs = Some e.
Proof.
  induction docs as [|d r IH]; simpl; [contradiction|].
  intros seen e H. unfold has_pcId at 1.
  destruct (existsb (String.eqb (pcId d)) seen) eqn:S.
  - destruct (group_first_In _ _ _ H) as [_ N].
    apply existsb_eqb_In in S.
    destruct (String.eqb_spec (pcId d) (pcId e)) as [E|_];
      [rewrite E in S; contradiction|]. now apply IH with seen.
  - destruct H as [<-|H]; [now rewrite String.eqb_refl|].
    destruct (group_first_In _ _ _ H) as [_ N].
    destruct (String.eqb_spec (pcId d) (pcId e)) as [E|_];
      [exfalso; apply N; now left|]. now apply IH with (pcId d :: seen).
Qed.

Lemma find_group_first (docs : list SystemInfo) (p : string) :
  forall seen,
    ~ In p seen ->
    find (has_pcId p) (group_first docs seen) = find (has_pcId p) docs.
Proof.
  induction docs as [|d r IH]; simpl; [reflexivity|].
  intros seen N. destruct (existsb (String.eqb (pcId d)) seen) eqn:S.
  - apply existsb_eqb_In in S. unfold has_pcId at 2.
    destruct (String.eqb_spec (pcId d) p) as [E|_];
      [rewrite E in S; contradiction|]. now apply IH.
  - simpl. unfold has_pcId at 1 3.
    destruct (String.eqb_spec (pcId d) p) as [E|NE]; [reflexivity|].
    apply IH. intros [C|C]; contradiction.
Qed.

(** * Latest Sample per machine *)

Lemma sorted_for_latest (db : Collection) :
  StronglySorted (fun a b => pcId_asc_createdAt_desc a b = true)
                 (sort_by pcId_asc_createdAt_desc db).
Proof.
  apply sort_by_sorted.
  - exact pcId_asc_createdAt_desc_total.
  - exact pcId_asc_createdAt_desc_trans.
Qed.

Lemma getLatestData_In (db : Collection) (e : SystemInfo) :
  In e (getLatestData db) -> In e db.
Proof.
  intros H. apply group_first_In in H. destruct H as [H _].
  now apply sort_by_In in H.
Qed.

Lemma getLatestData_keys (db : Collection) (p : string) :
  In p (map pcId (getLatestData db)) <-> In p (map pcId db).
Proof.
  unfold getLatestData. rewrite group_first_keys. split.
  - intros [H _]. apply in_map_iff in H. destruct H as (x & E & H).
    apply sort_by_In in H. apply in_map_iff. eauto.
  - intros H. split; [|intros []].
    apply in_map_iff in H. destruct H as (x & E & H).
    apply in_map_iff. exists x. split; [exact E|now apply sort_by_In].
Qed.

Lemma getLatestData_count (db : Collection) :
  List.length (getLatestData db) = distinct_pcIds db.
Proof.
  unfold distinct_pcIds. rewrite <- (length_map pcId (getLatestData db)).
  apply Permutation_length, NoDup_Permutation.
  - apply group_first_NoDup.
  - apply NoDup_nodup.
  - intros p. rewrite getLatestData_keys, nodup_In. tauto.
Qed.

(** C2.  [getLatestData] (what GET [/pcs] returns) holds exactly one entry
    for each distinct [pcId] of the collection: the keys of the result have
    no repetition and are the keys of the collection, so that [count] is
    the number of distinct machines; every entry is a document of the
    collection whose [createdAt] is the greatest among the documents of
    its machine. *)
Theorem getLatestData_one_entry_per_pc_with_max_createdAt (db : Collection) :
  NoDup (map pcId (getLatestData db)) /\
  (forall p, In p (map pcId (getLatestData db)) <-> In p (map pcId db)) /\
  (forall e, In e (getLatestData db) ->
     In e db /\
     forall s, In s db -> pcId s = pcId e -> createdAt s <= createdAt e) /\
  get_pcs db = (getLatestData db, distinct_pcIds db).
Proof.
  split; [apply group_first_NoDup|].
  split; [apply getLatestData_keys|].
  split.
  - intros e He. split; [now apply getLatestData_In|].
    intros s Hs Es.
    assert (L : pcId_asc_createdAt_desc e s = true).
    { apply (find_sorted_least pcId_asc_createdAt_desc
               pcId_asc_createdAt_desc_total (has_pcId (pcId e))
               (sort_by pcId_asc_createdAt_desc db)).
      - apply sorted_for_latest.
      - now apply group_first_find with (seen := []).
      - now apply sort_by_In.
      - unfold has_pcId. rewrite Es. apply String.eqb_refl. }
    rewrite pcId_asc_createdAt_desc_same in L by now symmetry. lia.
  - unfold get_pcs. now rewrite getLatestData_count.
Qed.

Lemma group_first_newest (db sorted : list SystemInfo) (e : SystemInfo) :
  sort_result pcId_asc_createdAt_desc db sorted ->
  In e (group_first sorted []) -> newest_of_machine db e.
Proof.
  intros [P S] He. split.
  - apply (Permutation_in _ (Permutation_sym P)).
    now apply group_first_In in He.
  - intros s Hs Es.
    assert (L : pcId_asc_createdAt_desc e s = true).
    { apply (find_sorted_least pcId_asc_createdAt_desc
               pcId_asc_createdAt_desc_total (has_pcId (pcId e)) sorted).
      - exact S.
      - now apply group_first_find with (seen := []).
      - exact (Permutation_in _ P Hs).
      - unfold has_pcId. rewrite Es. apply String.eqb_refl. }
    rewrite pcId_asc_createdAt_desc_same in L by now symmetry. lia.
Qed.

(** Sorting the collection with [e] moved to its front is a sort of the
    collection, and puts [e] before the documents that tie with it. *)
Lemma newest_can_come_first (db : Collection) (e : SystemInfo) :
  newest_of_machine db e ->
  exists sorted,
    sort_result pcId_asc_createdAt_desc db sorted /\
    In e (group_first sorted []).
Proof.
  intros [He Hmax].
  destruct (in_split _ _ He) as (l1 & l2 & E).
  assert (P : Permutation db (e :: l1 ++ l2))
    by (rewrite E; apply Permutation_sym, Permutation_middle).
  exists (sort_by pcId_asc_createdAt_desc (e :: l1 ++ l2)). split.
  - split; [|apply sorted_for_latest].
    eapply perm_trans; [exact P|apply Permutation_sym, sort_by_perm].
  - assert (Pe : has_pcId (pcId e) e = true)
      by (unfold has_pcId; apply String.eqb_refl).
    assert (F : find (has_pcId (pcId e))
                     (group_first
                        (sort_by pcId_asc_createdAt_desc (e :: l1 ++ l2)) [])
                = Some e).
    { rewrite find_group_first by (intros []).
      rewrite (find_sort_by _ pcId_asc_createdAt_desc_total
                 pcId_asc_createdAt_desc_trans).
      simpl. rewrite Pe.
      destruct (first_best pcId_asc_createdAt_desc (has_pcId (pcId e))
                           (l1 ++ l2)) as [w|] eqn:Fw; [|reflexivity].
      destruct (first_best_spec _ pcId_asc_createdAt_desc_total
                  pcId_asc_createdAt_desc_trans _ _ _ Fw)
        as (k1 & k2 & Ew & Pw & _).
      assert (Iw : In w db).
      { apply (Permutation_in _ (Permutation_sym P)). right.
        rewrite Ew. apply in_or_app. right. now left. }
      unfold has_pcId in Pw. apply String.eqb_eq in Pw.
      rewrite pcId_asc_createdAt_desc_same by now symmetry.
      specialize (Hmax w Iw Pw).
      destruct (Z.leb_spec (createdAt w) (createdAt e)); [reflexivity|lia]. }
    exact (proj1 (find_some _ _ F)).
Qed.

(** C8, as stated, fails.  Two Samples of one machine with the same
    [createdAt], [tie_first] inserted before [tie_second]: the sort keys
    of the pipeline do not tell them apart, so the stream may hold them in
    either order and [$first] keeps either.  The result with the Sample
    inserted first is as much a result as the one with the Sample
    inserted last, and the two differ. *)
Lemma getLatestData_tie_is_left_open :
  pcId tie_first = pcId tie_second /\
  createdAt tie_first = createdAt tie_second /\
  getLatestData_result [tie_first; tie_second] [tie_first] /\
  getLatestData_result [tie_first; tie_second] [tie_second] /\
  [tie_first] <> [tie_second] /\
  ~ (forall res,
       getLatestData_result [tie_first; tie_second] res ->
       res = [tie_second]).
Proof.
  assert (R1 : getLatestData_result [tie_first; tie_second] [tie_first]).
  { exists [tie_first; tie_second]. split; [split|].
    - apply Permutation_refl.
    - repeat constructor.
    - apply Permutation_refl. }
  assert (R2 : getLatestData_result [tie_first; tie_second] [tie_second]).
  { exists [tie_second; tie_first]. split; [split|].
    - apply perm_swap.
    - repeat constructor.
    - apply Permutation_refl. }
  repeat split; [exact R1|exact R2|discriminate|].
  intros H. specialize (H _ R1). discriminate.
Qed.

(** C8, amended.  Every result of the pipeline holds one entry for each
    machine of the collection, a document of that machine that none of
    its documents is newer than.  When each machine has a single newest
    document, any two results hold the same entries.  When several
    documents of a machine tie for the newest, the pipeline does not
    decide between them: each of them is the entry of some result, the
    one inserted first as well as the one inserted last. *)
Theorem getLatestData_decides_up_to_ties (db : Collection) :
  getLatestData_result db (getLatestData db) /\
  (forall res, getLatestData_result db res ->
     NoDup (map pcId res) /\
     (forall p, In p (map pcId res) <-> In p (map pcId db)) /\
     (forall e, In e res -> newest_of_machine db e)) /\
  ((forall a b, newest_of_machine db a -> newest_of_machine db b ->
                pcId a = pcId b -> a = b) ->
   forall res1 res2,
     getLatestData_result db res1 -> getLatestData_result db res2 ->
     Permutation res1 res2) /\
  (forall e, newest_of_machine db e ->
     exists res, getLatestData_result db res /\ In e res).
Proof.
  assert (Shape : forall res, getLatestData_result db res ->
            NoDup (map pcId res) /\
            (forall p, In p (map pcId res) <-> In p (map pcId db)) /\
            (forall e, In e res -> newest_of_machine db e)).
  { intros res (sorted & S & G). split; [|split].
    - apply (Permutation_NoDup (Permutation_map pcId G)).
      apply group_first_NoDup.
    - intros p.
      assert (K1 : In p (map pcId res) <->
                   In p (map pcId (group_first sorted [])))
        by (split; apply Permutation_in;
            [apply Permutation_sym|]; apply Permutation_map, G).
      assert (K2 : In p (map pcId sorted) <-> In p (map pcId db))
        by (split; apply Permutation_in;
            [apply Permutation_sym|]; apply Permutation_map, (proj1 S)).
      rewrite K1, group_first_keys, K2. simpl. tauto.
    - intros e He. apply (group_first_newest db sorted e S).
      exact (Permutation_in _ (Permutation_sym G) He). }
  split; [|split; [exact Shape|split]].
  - exists (sort_by pcId_asc_createdAt_desc db). split; [split|].
    + apply Permutation_sym, sort_by_perm.
    + apply sorted_for_latest.
    + apply Permutation_refl.
  - intros Single res1 res2 H1 H2.
    destruct (Shape _ H1) as (N1 & K1 & M1).
    destruct (Shape _ H2) as (N2 & K2 & M2).
    assert (Sub : forall r r',
              (forall p, In p (map pcId r) <-> In p (map pcId db)) ->
              (forall p, In p (map pcId r') <-> In p (map pcId db)) ->
              (forall e, In e r -> newest_of_machine db e) ->
              (forall e, In e r' -> newest_of_machine db e) ->
              forall e, In e r -> In e r').
    { intros r r' Kr Kr' Mr Mr' e He.
      assert (I : In (pcId e) (map pcId r'))
        by (apply Kr', Kr, in_map, He).
      apply in_map_iff in I. destruct I as (e' & E & He').
      rewrite <- (Single e' e (Mr' _ He') (Mr _ He) E). exact He'. }
    apply NoDup_Permutation.
    + exact (NoDup_map_inv _ _ N1).
    + exact (NoDup_map_inv _ _ N2).
    + intros e. split; [apply (Sub res1 res2)|apply (Sub res2 res1)];
        assumption.
  - intros e He. destruct (newest_can_come_first db e He) as (sorted & S & I).
    exists (group_first sorted []). split; [|exact I].
    exists sorted. split; [exact S|apply Permutation_refl].
Qed.

Lemma getLatestData_decides_up_to_ties_witness :
  (exists res,
     getLatestData_result [tie_first; tie_second] res /\ In tie_first res) /\
  (exists res,
     getLatestData_result [tie_first; tie_second] res /\ In tie_second res) /\
  (forall res1 res2,
     getLatestData_result [old_sample; new_sample; other_sample] res1 ->
     getLatestData_result [old_sample; new_sample; other_sample] res2 ->
     Permutation res1 res2).
Proof.
  destruct (getLatestData_decides_up_to_ties [tie_first; tie_second])
    as (_ & _ & _ & H).
  destruct (getLatestData_decides_up_to_ties
              [old_sample; new_sample; other_sample]) as (_ & _ & S & _).
  split; [|split].
  - apply H. split; [simpl; tauto|].
    intros s [<-|[<-|[]]] _; simpl; lia.
  - apply H. split; [simpl; tauto|].
    intros s [<-|[<-|[]]] _; simpl; lia.
  - apply S. intros a b [Ia Ma] [Ib Mb] E.
    assert (Na : a <> old_sample).
    { intros ->.
      pose proof (Ma new_sample (or_intror (or_introl eq_refl)) eq_refl) as C.
      simpl in C. lia. }
    assert (Nb : b <> old_sample).
    { intros ->.
      pose proof (Mb new_sample (or_intror (or_introl eq_refl)) eq_refl) as C.
      simpl in C. lia. }
    destruct Ia as [<-|[<-|[<-|[]]]]; [now contradiction Na| |];
      (destruct Ib as [<-|[<-|[<-|[]]]]; [now contradiction Nb| |]);
      reflexivity || discriminate E.
Defined.

(** * GET [/]: which branch answers *)

Lemma hours_in_range (h : Z) :
  1 <= h <= 168 -> (h <? 1) || (168 <? h) = false.
Proof.
  intros H. apply orb_false_iff. split; apply Z.ltb_ge; lia.
Qed.

Lemma get_systemdata_one (p : string) (q_hours : option string)
  (h now : Z) (db : Collection) :
  p <> "" -> hours_param q_hours = Some h -> 1 <= h <= 168 ->
  get_systemdata (Some p) q_hours now db =
  GetOne p (findOne_latest p db) (getHistoricalData p h now db)
         (JS.toString h ++ " hours")%string.
Proof.
  intros Hp Hq Hh. unfold get_systemdata.
  rewrite Hq, (hours_in_range h Hh). simpl.
  destruct (String.eqb_spec p ""); [contradiction|reflexivity].
Qed.

Lemma get_systemdata_all (q_hours : option string) (h now : Z)
  (db : Collection) :
  hours_param q_hours = Some h -> 1 <= h <= 168 ->
  get_systemdata None q_hours now db =
  GetAll (getLatestData db) (hd no_overview (getOverviewStats now db))
         "24 hours".
Proof.
  intros Hq Hh. unfold get_systemdata.
  now rewrite Hq, (hours_in_range h Hh).
Qed.

(** * White space

    What [trim] removes, and that it removes it once and for all. *)

Section Trim.
Local Open Scope string_scope.

Lemma append_empty_r (s : string) : s ++ "" = s.
Proof. induction s as [|c r IH]; simpl; [reflexivity|now rewrite IH]. Qed.

Lemma length_append (a b : string) :
  String.length (a ++ b) = (String.length a + String.length b)%nat.
Proof. induction a as [|c r IH]; simpl; [reflexivity|now rewrite IH]. Qed.

(** Either [skip_ws] leaves the string alone, or the string starts with a
    white space character and what follows it is skipped in turn,
    whatever comes after the string. *)
Lemma skip_ws_cases (a : string) :
  JS.skip_ws a = a \/
  exists r, (String.length r < String.length a)%nat /\
            forall w, JS.skip_ws (a ++ w) = JS.skip_ws (r ++ w).
Proof.
  destruct a as [|c1 r1]; [now left|].
  simpl. destruct (JS.is_ws c1).
  - right. exists r1. split; [lia|reflexivity].
  - destruct (JS.ws_lead c1); simpl; [|now left].
    destruct r1 as [|c2 r2]; [now left|]. simpl.
    destruct (JS.is_ws2 c1 c2).
    + right. exists r2. split; [lia|reflexivity].
    + destruct r2 as [|c3 r3]; [now left|]. simpl.
      destruct (JS.is_ws3 c1 c2 c3); [|now left].
      right. exists r3. split; [lia|reflexivity].
Qed.

Lemma skip_ws_length (s : string) :
  (String.length (JS.skip_ws s) <= String.length s)%nat.
Proof.
  remember (String.length s) as n eqn:E. revert s E.
  induction n as [n IH] using lt_wf_ind. intros s ->.
  destruct (skip_ws_cases s) as [K|(r & L & H)]; [rewrite K; lia|].
  specialize (H ""). rewrite !append_empty_r in H. rewrite H.
  specialize (IH _ L r eq_refl). lia.
Qed.

Lemma skip_ws_idempotent (s : string) :
  JS.skip_ws (JS.skip_ws s) = JS.skip_ws s.
Proof.
  remember (String.length s) as n eqn:E. revert s E.
  induction n as [n IH] using lt_wf_ind. intros s ->.
  destruct (skip_ws_cases s) as [K|(r & L & H)]; [now rewrite !K|].
  specialize (H ""). rewrite !append_empty_r in H. rewrite H.
  exact (IH _ L r eq_refl).
Qed.

(** White space before a string is skipped with it. *)
Lemma skip_ws_app (a w : string) :
  JS.skip_ws a = "" -> JS.skip_ws (a ++ w) = JS.skip_ws w.
Proof.
  remember (String.length a) as n eqn:E. revert a E.
  induction n as [n IH] using lt_wf_ind. intros a -> Ha.
  destruct (skip_ws_cases a) as [K|(r & L & H)].
  - rewrite Ha in K. now subst a.
  - rewrite H. apply (IH _ L r eq_refl).
    specialize (H ""). rewrite !append_empty_r in H. now rewrite <- H.
Qed.

(** What [trim_end] cuts off is white space. *)
Lemma trim_end_app (s : string) :
  exists w, s = JS.trim_end s ++ w /\ JS.skip_ws w = "".
Proof.
  induction s as [|c r (w & E & W)].
  - now exists "".
  - cbn [JS.trim_end]. destruct (JS.skip_ws (String c r) =? "") eqn:K.
    + exists (String c r). split; [reflexivity|now apply String.eqb_eq].
    + exists w. split; [simpl; now rewrite <- E|exact W].
Qed.

Lemma trim_end_idempotent (s : string) :
  JS.trim_end (JS.trim_end s) = JS.trim_end s.
Proof.
  induction s as [|c r IH]; [reflexivity|].
  cbn [JS.trim_end]. destruct (JS.skip_ws (String c r) =? "") eqn:K;
    [reflexivity|].
  cbn [JS.trim_end]. rewrite IH.
  destruct (JS.skip_ws (String c (JS.trim_end r)) =? "") eqn:K';
    [exfalso|reflexivity].
  apply String.eqb_eq in K'. apply String.eqb_neq in K. apply K.
  destruct (trim_end_app r) as (w & E & W).
  rewrite E at 1. change (String c (JS.trim_end r ++ w))
    with (String c (JS.trim_end r) ++ w).
  now rewrite skip_ws_app.
Qed.

(** Cutting the end off a string that starts with no white space gives a
    string that starts with none. *)
Lemma skip_ws_trim_end (s : string) :
  JS.skip_ws s = s -> JS.skip_ws (JS.trim_end s) = JS.trim_end s.
Proof.
  intros Hs. destruct (trim_end_app s) as (w & E & _).
  destruct (skip_ws_cases (JS.trim_end s)) as [K|(r & L & H)]; [exact K|].
  exfalso. specialize (H w). rewrite <- E, Hs in H.
  pose proof (skip_ws_length (r ++ w)) as B. rewrite <- H in B.
  rewrite E in B at 1. rewrite !length_append in B. lia.
Qed.

(** Trimming a trimmed string changes nothing. *)
Lemma trim_idempotent (s : string) : JS.trim (JS.trim s) = JS.trim s.
Proof.
  unfold JS.trim.
  rewrite (skip_ws_trim_end _ (skip_ws_idempotent s)).
  apply trim_end_idempotent.
Qed.

End Trim.

(** * Latest Sample of one machine *)

Lemma hd_error_find {A : Type} (l : list A) :
  hd_error l = find (fun _ => true) l.
Proof. now destruct l. Qed.

Lemma findOne_latest_none (p : string) (db : Collection) :
  findOne_latest p db = None <-> forall s, In s db -> pcId s <> JS.trim p.
Proof.
  unfold findOne_latest, cast_pcId. generalize (JS.trim p). clear p.
  intros p. split.
  - intros H s Hs E.
    assert (I : In s (sort_by createdAt_desc (filter (has_pcId p) db))).
    { apply sort_by_In, filter_In. split; [exact Hs|].
      unfold has_pcId. rewrite E. apply String.eqb_refl. }
    destruct (sort_by createdAt_desc (filter (has_pcId p) db));
      [contradiction|discriminate].
  - intros H.
    destruct (sort_by createdAt_desc (filter (has_pcId p) db)) as [|x r] eqn:E;
      [reflexivity|exfalso].
    assert (I : In x (sort_by createdAt_desc (filter (has_pcId p) db)))
      by (rewrite E; now left).
    apply sort_by_In, filter_In in I. destruct I as [I Px].
    apply (H x I). unfold has_pcId in Px. now apply String.eqb_eq.
Qed.

Lemma findOne_latest_some (p : string) (db : Collection) (e : SystemInfo) :
  findOne_latest p db = Some e ->
  In e db /\ pcId e = JS.trim p /\
  forall s, In s db -> pcId s = JS.trim p -> createdAt s <= createdAt e.
Proof.
  unfold findOne_latest, cast_pcId. generalize (JS.trim p). clear p.
  intros p. rewrite hd_error_find. intros H.
  pose proof (find_some _ _ H) as [I _].
  apply sort_by_In, filter_In in I. destruct I as [I Pe].
  split; [exact I|]. split; [now apply String.eqb_eq|].
  intros s Hs Es.
  assert (L : createdAt_desc e s = true).
  { apply (find_sorted_least createdAt_desc createdAt_desc_total
             (fun _ => true)
             (sort_by createdAt_desc (filter (has_pcId p) db))).
    - apply sort_by_sorted;
        [exact createdAt_desc_total|exact createdAt_desc_trans].
    - exact H.
    - apply sort_by_In, filter_In. split; [exact Hs|].
      unfold has_pcId. rewrite Es. apply String.eqb_refl.
    - reflexivity. }
  unfold createdAt_desc in L. lia.
Qed.

(** C9.  GET [/] with a [pcId] answers with [latest] taken from the whole
    collection, whatever [hours] and the clock are: it is [null] exactly
    when the collection has no document of that machine, and otherwise a
    document of that machine whose [createdAt] no other one exceeds.  The
    machine is looked up as its documents are stored, under the [pcId]
    without the white space around it. *)
Theorem get_systemdata_latest_is_newest_of_machine
  (p : string) (q_hours : option string) (h now : Z) (db : Collection) :
  p <> "" -> hours_param q_hours = Some h -> 1 <= h <= 168 ->
  exists historical timeRange,
    get_systemdata (Some p) q_hours now db =
      GetOne p (findOne_latest p db) historical timeRange /\
    (findOne_latest p db = None <->
     forall s, In s db -> pcId s <> JS.trim p) /\
    (forall e, findOne_latest p db = Some e ->
       In e db /\ pcId e = JS.trim p /\
       forall s, In s db -> pcId s = JS.trim p ->
                 createdAt s <= createdAt e).
Proof.
  intros Hp Hq Hh. eexists _, _. split.
  - exact (get_systemdata_one p q_hours h now db Hp Hq Hh).
  - split; [apply findOne_latest_none|apply findOne_latest_some].
Qed.

Lemma get_systemdata_latest_is_newest_of_machine_witness :
  exists historical timeRange,
    get_systemdata (Some "PC-1") (Some "1") 7200000
                   [old_sample; new_sample; other_sample] =
      GetOne "PC-1"
             (findOne_latest "PC-1" [old_sample; new_sample; other_sample])
             historical timeRange /\
    (findOne_latest "PC-1" [old_sample; new_sample; other_sample] = None <->
     forall s, In s [old_sample; new_sample; other_sample] ->
               pcId s <> "PC-1") /\
    (forall e,
       findOne_latest "PC-1" [old_sample; new_sample; other_sample] = Some e ->
       In e [old_sample; new_sample; other_sample] /\ pcId e = "PC-1" /\
       forall s, In s [old_sample; new_sample; other_sample] ->
                 pcId s = "PC-1" -> createdAt s <= createdAt e).
Proof.
  apply (get_systemdata_latest_is_newest_of_machine
           "PC-1" (Some "1") 1 7200000
           [old_sample; new_sample; other_sample]).
  - discriminate.
  - reflexivity.
  - lia.
Defined.

(** * History of one machine *)

Lemma getHistoricalData_In (p : string) (h now : Z) (db : Collection)
  (s : SystemInfo) :
  In s (getHistoricalData p h now db) <->
  In s db /\ pcId s = JS.trim p /\ now - h * ms_per_hour <= createdAt s.
Proof.
  unfold getHistoricalData, has_pcId, cast_pcId, ms_per_hour.
  rewrite sort_by_In, filter_In, andb_true_iff, String.eqb_eq, Z.leb_le.
  intuition lia.
Qed.

Lemma StronglySorted_weaken {A : Type} (R R' : A -> A -> Prop) (l : list A) :
  (forall a b, R a b -> R' a b) -> StronglySorted R l -> StronglySorted R' l.
Proof.
  intros HR. induction 1 as [|x r Hr IH Hx]; constructor; [exact IH|].
  eapply Forall_impl; [|exact Hx]. intros b. apply HR.
Qed.

(** C6.  GET [/] with a [pcId] answers with [historical] being
    [getHistoricalData]: the documents of that machine created at or after
    [now - h] hours, each as often as the collection holds it, by
    ascending [createdAt]; it is the empty list when the machine has no
    document in that range, and in particular when it is unknown.  The
    machine is looked up as its documents are stored, under the [pcId]
    without the white space around it. *)
Theorem getHistoricalData_window_ascending
  (p : string) (q_hours : option string) (h now : Z) (db : Collection) :
  p <> "" -> hours_param q_hours = Some h -> 1 <= h <= 168 ->
  let historical := getHistoricalData p h now db in
  (exists latest timeRange,
     get_systemdata (Some p) q_hours now db =
       GetOne p latest historical timeRange) /\
  (forall s, In s historical <->
     In s db /\ pcId s = JS.trim p /\
     now - h * ms_per_hour <= createdAt s) /\
  Permutation historical
    (filter (fun d => (pcId d =? JS.trim p)%string
                      && (now - h * ms_per_hour <=? createdAt d)) db) /\
  StronglySorted (fun a b => createdAt a <= createdAt b) historical /\
  ((forall s, In s db -> pcId s = JS.trim p ->
              createdAt s < now - h * ms_per_hour) ->
   historical = []).
Proof.
  intros Hp Hq Hh historical. split.
  - eexists _, _. exact (get_systemdata_one p q_hours h now db Hp Hq Hh).
  - split; [apply getHistoricalData_In|]. split.
    + unfold historical, getHistoricalData, has_pcId, cast_pcId, ms_per_hour.
      rewrite !Z.mul_assoc. apply sort_by_perm.
    + split.
      * eapply StronglySorted_weaken;
          [|apply sort_by_sorted;
            [exact createdAt_asc_total|exact createdAt_asc_trans]].
        intros a b L. unfold createdAt_asc in L. lia.
      * intros H. destruct historical as [|x r] eqn:E; [reflexivity|exfalso].
        assert (I : In x (getHistoricalData p h now db))
          by (fold historical; rewrite E; now left).
        apply getHistoricalData_In in I. destruct I as (I & Px & C).
        specialize (H x I Px). lia.
Qed.

(** * Overview statistics *)

Section Rationals.
Local Open Scope Q_scope.

Lemma round_half_even_comp (x y : Q) :
  x == y -> round_half_even x = round_half_even y.
Proof.
  intros E. unfold round_half_even.
  rewrite (Qfloor_comp _ _ E).
  assert (C : (x - inject_Z (Qfloor y) ?= 1 # 2) =
              (y - inject_Z (Qfloor y) ?= 1 # 2)).
  { apply Qcompare_comp; [now rewrite E | reflexivity]. }
  now rewrite C.
Qed.

Lemma round2_comp (x y : Q) : x == y -> round2 x = round2 y.
Proof.
  intros E. unfold round2. f_equal. apply round_half_even_comp. now rewrite E.
Qed.



Lemma avg_fold (xs : list Q) : forall (s : Q) (n : Z),
  let r := fold_left (fun (acc : Q * Z) x => ((fst acc + x)%Q, (snd acc + 1)%Z))
                     xs (s, n) in
  fst r == s + Qsum xs /\ snd r = (n + Z.of_nat (List.length xs))%Z.
Proof.
  induction xs as [|x r IH]; intros s n; simpl.
  - split; [lra|lia].
  - destruct (IH (s + x) (n + 1)%Z) as [H1 H2]. simpl in H1, H2.
    split; [rewrite H1; lra|rewrite H2; lia].
Qed.

Lemma avg_is_mean (xs : list Q) : avg xs == arithmetic_mean xs.
Proof.
  unfold avg, arithmetic_mean.
  destruct (avg_fold xs 0 0%Z) as [H1 H2]. simpl in H1, H2.
  destruct (fold_left _ xs (0, 0%Z)) as [s n]. simpl in H1, H2.
  rewrite H1, H2. apply Qdiv_comp; [lra|reflexivity].
Qed.

Lemma fold_addToSet (l : list string) : forall acc,
  NoDup acc ->
  NoDup (fold_left addToSet l acc) /\
  forall x, In x (fold_left addToSet l acc) <-> In x acc \/ In x l.
Proof.
  induction l as [|y r IH]; intros acc Hacc; simpl.
  - split; [exact Hacc|tauto].
  - assert (N : NoDup (addToSet acc y)).
    { unfold addToSet.
      destruct (existsb (String.eqb y) acc) eqn:E; [exact Hacc|].
      apply existsb_eqb_not_In in E.
      apply NoDup_rev in Hacc. rewrite <- (rev_involutive (acc ++ [y])).
      apply NoDup_rev. rewrite rev_app_distr. simpl. constructor; [|exact Hacc].
      now rewrite <- in_rev. }
    destruct (IH _ N) as [H1 H2]. split; [exact H1|].
    intros x. rewrite H2. unfold addToSet.
    destruct (existsb (String.eqb y) acc) eqn:E.
    + apply existsb_eqb_In in E. split; [tauto|]. intros [H|[<-|H]]; auto.
    + rewrite in_app_iff. simpl. tauto.
Qed.

Lemma addToSet_count (l : list string) :
  List.length (fold_left addToSet l []) = List.length (nodup string_dec l).
Proof.
  destruct (fold_addToSet l [] (NoDup_nil _)) as [H1 H2].
  apply Permutation_length, NoDup_Permutation; [exact H1|apply NoDup_nodup|].
  intros x. rewrite H2, nodup_In. simpl. tauto.
Qed.

End Rationals.

Lemma getHistoricalData_window_ascending_witness :
  let historical :=
    getHistoricalData "PC-1" 1 7200000
                      [old_sample; new_sample; other_sample] in
  (exists latest timeRange,
     get_systemdata (Some "PC-1") (Some "1") 7200000
                    [old_sample; new_sample; other_sample] =
       GetOne "PC-1" latest historical timeRange) /\
  (forall s, In s historical <->
     In s [old_sample; new_sample; other_sample] /\ pcId s = "PC-1" /\
     7200000 - 1 * ms_per_hour <= createdAt s) /\
  Permutation historical
    (filter (fun d => (pcId d =? "PC-1")%string
                      && (7200000 - 1 * ms_per_hour <=? createdAt d))
            [old_sample; new_sample; other_sample]) /\
  StronglySorted (fun a b => createdAt a <= createdAt b) historical /\
  ((forall s, In s [old_sample; new_sample; other_sample] ->
              pcId s = "PC-1" -> createdAt s < 7200000 - 1 * ms_per_hour) ->
   historical = []).
Proof.
  apply (getHistoricalData_window_ascending
           "PC-1" (Some "1") 1 7200000
           [old_sample; new_sample; other_sample]).
  - discriminate.
  - reflexivity.
  - lia.
Defined.

(** The pipeline of [getOverviewStats], with the fallback of the route,
    computes the Overview of the Samples of the last 24 hours. *)
Lemma getOverviewStats_overview (now : Z) (db : Collection) :
  hd no_overview (getOverviewStats now db) =
  overview_over (allWithinWindow 24 now db).
Proof.
  unfold getOverviewStats, allWithinWindow.
  change (now - 24 * ms_per_hour) with (now - 24 * 60 * 60 * 1000).
  destruct (filter (fun d => now - 24 * 60 * 60 * 1000 <=? createdAt d) db)
    as [|x r]; [reflexivity|].
  unfold overview_over, hd, distinct_pcIds.
  rewrite addToSet_count.
  now rewrite (round2_comp _ _ (avg_is_mean (map cpu (x :: r)))),
              (round2_comp _ _ (avg_is_mean (map ram (x :: r)))),
              (round2_comp _ _ (avg_is_mean (map disk (x :: r)))).
Qed.


(** The example of the specification: cpu 10, 20 and 30 on three machines
    give [avgCpu = 20.00] and three machines; nothing in the window gives
    zeros. *)
Example overview_three_machines :
  getOverviewStats 4000 [cpu10; cpu20; cpu30] =
  [ {| avgCpu := 2000 # 100; avgRam := 6000 # 100; avgDisk := 1250 # 100;
       totalPCs := 3 |} ] /\
  hd no_overview (getOverviewStats 4000 []) = no_overview.
Proof. split; reflexivity. Qed.


(** C7, as stated, fails.  One Sample recorded two hours ago and
    [hours=1]: no Sample lies within the last hour, so the claimed
    overview is all zeros, while the response averages that Sample. *)
Lemma overview_window_ignores_hours :
  hours_param (Some "1") = Some 1 /\
  allWithinWindow 1 7200000 [old_sample] = [] /\
  overview_over (allWithinWindow 1 7200000 [old_sample]) = no_overview /\
  response_overview (get_systemdata None (Some "1") 7200000 [old_sample]) =
    Some {| avgCpu := 5000 # 100; avgRam := 4000 # 100;
            avgDisk := 3000 # 100; totalPCs := 1 |} /\
  response_overview (get_systemdata None (Some "1") 7200000 [old_sample]) <>
    Some (overview_over (allWithinWindow 1 7200000 [old_sample])).
Proof. repeat split. discriminate. Qed.

(** C7, amended.  For every valid [hours] the overview of GET [/] without
    a [pcId] is computed over the Samples of the last 24 hours, and the
    response says so in its [timeRange]; [hours] plays no part in it. *)
Theorem overview_window_is_24_hours
  (q_hours : option string) (h now : Z) (db : Collection) :
  hours_param q_hours = Some h -> 1 <= h <= 168 ->
  get_systemdata None q_hours now db =
  GetAll (getLatestData db) (overview_over (allWithinWindow 24 now db))
         "24 hours".
Proof.
  intros Hq Hh. rewrite (get_systemdata_all q_hours h now db Hq Hh).
  now rewrite getOverviewStats_overview.
Qed.

Lemma overview_window_is_24_hours_witness :
  get_systemdata None (Some "1") 7200000 [old_sample] =
  GetAll (getLatestData [old_sample])
         (overview_over (allWithinWindow 24 7200000 [old_sample]))
         "24 hours".
Proof.
  apply (overview_window_is_24_hours (Some "1") 1 7200000 [old_sample]).
  - reflexivity.
  - lia.
Defined.

(** * Expiry and the queries *)

Lemma allWithinWindow_24_not_expired (now : Z) (db : Collection) :
  allWithinWindow 24 now db = filter (fun d => negb (expired now d)) db.
Proof.
  unfold allWithinWindow, expired. apply filter_ext. intros d.
  destruct (Z.leb_spec (now - 24 * ms_per_hour) (createdAt d));
    destruct (Z.ltb_spec (createdAt d + 24 * ms_per_hour) now);
    simpl; try reflexivity; lia.
Qed.

(** C4, as stated, fails.  [old_sample] was created at date 0 and the
    clock is 30 seconds past its expiry; the TTL monitor has not removed it
    yet.  It is expired, and [getLatestData], GET [/pcs], the [latest] of
    GET [/] with its [pcId] and the history over 48 hours all return it. *)
Lemma expired_sample_is_returned :
  expired 86430000 old_sample = true /\
  getLatestData [old_sample] = [old_sample] /\
  fst (get_pcs [old_sample]) = [old_sample] /\
  get_systemdata (Some "PC-1") None 86430000 [old_sample] =
    GetOne "PC-1" (Some old_sample) [] "24 hours" /\
  get_systemdata (Some "PC-1") (Some "48") 86430000 [old_sample] =
    GetOne "PC-1" (Some old_sample) [old_sample] "48 hours".
Proof. repeat split. Qed.

(** C4, amended.  The queries that filter by date keep expired Samples
    out as long as their window is at most the retention window: a history
    over [h <= 24] hours returns no expired Sample, and the overview is
    computed from the Samples that are not expired and from nothing else. *)
Theorem windowed_queries_skip_expired_samples
  (p : string) (q_hours : option string) (h now : Z) (db : Collection) :
  hours_param q_hours = Some h -> 1 <= h <= 24 ->
  (forall s, In s (getHistoricalData p h now db) -> expired now s = false) /\
  get_systemdata None q_hours now db =
    GetAll (getLatestData db)
           (overview_over (filter (fun d => negb (expired now d)) db))
           "24 hours".
Proof.
  intros Hq Hh. split.
  - intros s Hs. apply getHistoricalData_In in Hs.
    destruct Hs as (_ & _ & C). unfold expired, ms_per_hour in *.
    apply Z.ltb_ge. lia.
  - rewrite (get_systemdata_all q_hours h now db Hq) by lia.
    now rewrite getOverviewStats_overview, allWithinWindow_24_not_expired.
Qed.

Lemma windowed_queries_skip_expired_samples_witness :
  (forall s, In s (getHistoricalData "PC-1" 24 86430000
                                     [old_sample; new_sample]) ->
             expired 86430000 s = false) /\
  get_systemdata None None 86430000 [old_sample; new_sample] =
    GetAll (getLatestData [old_sample; new_sample])
           (overview_over
              (filter (fun d => negb (expired 86430000 d))
                      [old_sample; new_sample]))
           "24 hours".
Proof.
  apply (windowed_queries_skip_expired_samples
           "PC-1" None 24 86430000 [old_sample; new_sample]).
  - reflexivity.
  - lia.
Defined.

(** * The TTL index *)


(** The monitor at work on the same collection: the expired document is
    gone, and a history over a week returns the remaining one only. *)
Example ttl_sweep_then_week_history :
  ttl_sweep 86430000 [old_sample; new_sample] = [new_sample] /\
  getHistoricalData "PC-1" 168 86460000
    (ttl_sweep 86430000 [old_sample; new_sample]) = [new_sample].
Proof. split; reflexivity. Qed.

(** * POST [/]: validation *)

Lemma Qltb_lt (x y : Q) : Qltb x y = true <-> (x < y)%Q.
Proof.
  unfold Qltb. rewrite negb_true_iff. split.
  - intros H. apply Qnot_le_lt. intros C.
    apply Qle_bool_iff in C. congruence.
  - intros H. destruct (Qle_bool y x) eqn:E; [|reflexivity].
    apply Qle_bool_iff in E. exfalso. exact (Qlt_not_le _ _ H E).
Qed.

Lemma Qltb_ge (x y : Q) : Qltb x y = false <-> (y <= x)%Q.
Proof.
  unfold Qltb. rewrite negb_false_iff. apply Qle_bool_iff.
Qed.

Lemma trim_empty_of_empty (p : string) : JS.trim p <> "" -> p <> "".
Proof. intros H E. apply H. now rewrite E. Qed.

Lemma falsy_nonempty (p : string) : p <> "" -> JS.falsy (Some p) = false.
Proof. intros H. simpl. now apply String.eqb_neq. Qed.

(** C5.  POST [/] answers 400 with the missing-fields message whenever
    one of the six fields is absent; with all six present (and the two
    strings non-empty) it answers 400 with the invalid-ranges message
    whenever [cpu], [ram] or [disk] is below 0 or above 100 or [uptime] is
    below 0, and neither rejection touches the collection; with every
    value within its range, the bounds 0 and 100 included, it answers 201
    and the collection gains the document, stamped with the clock. *)
Theorem post_systemdata_validates
  (body : PostBody) (oid : nat) (now : Z) (db : Collection) :
  (body_pcId body = None \/ body_cpu body = None \/ body_ram body = None \/
   body_disk body = None \/ body_os body = None \/ body_uptime body = None ->
   post_systemdata body oid now db =
     (PostBadRequest missing_fields_message, db)) /\
  (forall p c r k o u,
     body = mkPostBody (Some p) (Some c) (Some r) (Some k) (Some o) (Some u) ->
     p <> "" -> o <> "" ->
     (c < 0 \/ 100 < c \/ r < 0 \/ 100 < r \/ k < 0 \/ 100 < k \/ u < 0)%Q ->
     post_systemdata body oid now db =
       (PostBadRequest invalid_ranges_message, db)) /\
  (forall p c r k o u,
     body = mkPostBody (Some p) (Some c) (Some r) (Some k) (Some o) (Some u) ->
     JS.trim p <> "" -> o <> "" ->
     (0 <= c <= 100 /\ 0 <= r <= 100 /\ 0 <= k <= 100 /\ 0 <= u)%Q ->
     post_systemdata body oid now db =
       (PostCreated oid (JS.trim p) now,
        db ++ [ {| _id := oid; pcId := JS.trim p; cpu := c; ram := r;
                   disk := k; os := o; uptime := u; createdAt := now |} ])).
Proof.
  split; [|split].
  - unfold post_systemdata.
    intros [H|[H|[H|[H|[H|H]]]]]; rewrite H; simpl;
      rewrite ?orb_true_r; reflexivity.
  - intros p c r k o u -> Hp Ho Hr. unfold post_systemdata. simpl.
    apply String.eqb_neq in Hp, Ho. rewrite Hp, Ho. simpl.
    assert (B : Qltb c 0 || Qltb 100 c || Qltb r 0 || Qltb 100 r
                || Qltb k 0 || Qltb 100 k || Qltb u 0 = true).
    { rewrite !orb_true_iff, !Qltb_lt. tauto. }
    now rewrite B.
  - intros p c r k o u -> Hp Ho (Hc & Hr & Hk & Hu).
    unfold post_systemdata. simpl.
    pose proof (trim_empty_of_empty p Hp) as Hp'.
    apply String.eqb_neq in Hp', Ho. rewrite Hp', Ho. simpl.
    assert (B : Qltb c 0 || Qltb 100 c || Qltb r 0 || Qltb 100 r
                || Qltb k 0 || Qltb 100 k || Qltb u 0 = false).
    { rewrite !orb_false_iff, !Qltb_ge. tauto. }
    rewrite B. unfold save, schema_valid, within. simpl.
    apply String.eqb_neq in Hp. rewrite Hp, Ho. simpl.
    destruct Hc as [Hc1 Hc2], Hr as [Hr1 Hr2], Hk as [Hk1 Hk2].
    apply Qle_bool_iff in Hc1, Hc2, Hr1, Hr2, Hk1, Hk2, Hu.
    now rewrite Hc1, Hc2, Hr1, Hr2, Hk1, Hk2, Hu.
Qed.

Lemma post_systemdata_validates_witness :
  post_systemdata boundary_body 1 5000 [] =
    (PostCreated 1 (JS.trim "PC-1") 5000,
     [] ++ [ {| _id := 1; pcId := JS.trim "PC-1"; cpu := 0; ram := 100;
                disk := 0; os := "Linux"; uptime := 0; createdAt := 5000 |} ]).
Proof.
  destruct (post_systemdata_validates boundary_body 1 5000 [])
    as (_ & _ & H).
  apply (H "PC-1" 0%Q 100%Q 0%Q "Linux" 0%Q).
  - reflexivity.
  - discriminate.
  - discriminate.
  - repeat split; discriminate.
Defined.

(** The cases the specification lists: [cpu = 101], [cpu = -1], no
    [pcId], no [uptime]. *)
Example post_systemdata_rejections :
  fst (post_systemdata
         (mkPostBody (Some "PC-1") (Some 101%Q) (Some 50%Q) (Some 50%Q)
                     (Some "Linux") (Some 10%Q)) 1 5000 []) =
    PostBadRequest invalid_ranges_message /\
  fst (post_systemdata
         (mkPostBody (Some "PC-1") (Some (-1)%Q) (Some 50%Q) (Some 50%Q)
                     (Some "Linux") (Some 10%Q)) 1 5000 []) =
    PostBadRequest invalid_ranges_message /\
  fst (post_systemdata
         (mkPostBody None (Some 50%Q) (Some 50%Q) (Some 50%Q)
                     (Some "Linux") (Some 10%Q)) 1 5000 []) =
    PostBadRequest missing_fields_message /\
  fst (post_systemdata
         (mkPostBody (Some "PC-1") (Some 50%Q) (Some 50%Q) (Some 50%Q)
                     (Some "Linux") None) 1 5000 []) =
    PostBadRequest missing_fields_message.
Proof. repeat split. Qed.

(** * DELETE [/cleanup] *)

Lemma cleanupOldData_is_not_defined : has_static "cleanupOldData" = false.
Proof. reflexivity. Qed.

(** With a valid [hours] the handler reaches the call of the missing
    static and answers 500; nothing is deleted. *)
Lemma delete_cleanup_valid_hours (q_hours : option string) (h now : Z)
  (db : Collection) :
  hours_param q_hours = Some h -> 1 <= h ->
  delete_cleanup q_hours now db = (CleanupError "Internal server error", db).
Proof.
  intros Hq Hh. unfold delete_cleanup. rewrite Hq.
  destruct (Z.ltb_spec h 1); [lia|].
  now rewrite cleanupOldData_is_not_defined.
Qed.

(** C1, on the code.  The purge of an empty store, with the default
    [hours] or with [hours=24], answers 500 and not 200 with a count of 0;
    and for no request at all does the route answer 200, nor does it ever
    change the collection. *)
Theorem delete_cleanup_never_answers_200 :
  (forall now,
     delete_cleanup None now [] = (CleanupError "Internal server error", []) /\
     delete_cleanup (Some "24") now [] =
       (CleanupError "Internal server error", [])) /\
  (forall q_hours now db,
     cleanup_status (fst (delete_cleanup q_hours now db)) <> 200 /\
     snd (delete_cleanup q_hours now db) = db).
Proof.
  split; [intros now; split; reflexivity|].
  intros q_hours now db. unfold delete_cleanup.
  destruct (hours_param q_hours) as [h|]; [|split; [discriminate|reflexivity]].
  destruct (h <? 1); [split; [discriminate|reflexivity]|].
  rewrite cleanupOldData_is_not_defined. split; [discriminate|reflexivity].
Qed.

(** What the purge of the specification would answer on the same
    requests: the count of the Samples older than the cutoff, 0 on an
    empty store. *)
Example purgeOlderThan_counts :
  purgeOlderThan 24 86430000 [] = (0%nat, []) /\
  purgeOlderThan 24 86430000 [old_sample; new_sample] = (1%nat, [new_sample]).
Proof. split; reflexivity. Qed.

(** * POST [/] and the collection *)

(** What a 201 tells about the request and the collection. *)
Lemma post_created_inv (body : PostBody) (oid : nat) (now : Z)
  (db db' : Collection) (id : nat) (pc : string) (ts : Z) :
  post_systemdata body oid now db = (PostCreated id pc ts, db') ->
  exists p c r k o u,
    body = mkPostBody (Some p) (Some c) (Some r) (Some k) (Some o) (Some u) /\
    let d := {| _id := oid; pcId := JS.trim p; cpu := c; ram := r; disk := k;
                os := o; uptime := u; createdAt := now |} in
    schema_valid d = true /\ db' = db ++ [d] /\
    id = oid /\ pc = JS.trim p /\ ts = now.
Proof.
  unfold post_systemdata. destruct body as [bp bc br bk bo bu]. simpl.
  destruct (JS.falsy bp || JS.undefined bc || JS.undefined br
            || JS.undefined bk || JS.falsy bo || JS.undefined bu);
    [discriminate|].
  destruct bp as [p|], bc as [c|], br as [r|], bk as [k|], bo as [o|],
           bu as [u|]; try discriminate.
  destruct (Qltb c 0 || Qltb 100 c || Qltb r 0 || Qltb 100 r
            || Qltb k 0 || Qltb 100 k || Qltb u 0); [discriminate|].
  unfold save.
  destruct (schema_valid _) eqn:V; [|discriminate].
  simpl. intros [= <- <- <- <-].
  exists p, c, r, k, o, u. repeat split. exact V.
Qed.

(** Any answer other than 201 leaves the collection as it was. *)
Lemma post_not_created_unchanged (body : PostBody) (oid : nat) (now : Z)
  (db : Collection) :
  post_status (fst (post_systemdata body oid now db)) <> 201 ->
  snd (post_systemdata body oid now db) = db.
Proof.
  unfold post_systemdata.
  destruct (JS.falsy _ || _ || _ || _ || _ || _); [reflexivity|].
  destruct (body_pcId body), (body_cpu body), (body_ram body),
           (body_disk body), (body_os body), (body_uptime body);
    try reflexivity.
  destruct (Qltb _ _ || _ || _ || _ || _ || _ || _); [reflexivity|].
  destruct (save _ _ _ _ _ _ _ _ _) as [[d db']|]; [|reflexivity].
  simpl. congruence.
Qed.

Lemma schema_valid_ranges (d : SystemInfo) :
  schema_valid d = true <-> within_schema d.
Proof.
  unfold schema_valid, within, within_schema.
  rewrite !andb_true_iff, !negb_true_iff, !String.eqb_neq, !Qle_bool_iff.
  tauto.
Qed.

Lemma getLatestData_max (db : Collection) (e s : SystemInfo) :
  In e (getLatestData db) -> In s db -> pcId s = pcId e ->
  createdAt s <= createdAt e.
Proof.
  intros He Hs Es.
  assert (L : pcId_asc_createdAt_desc e s = true).
  { apply (find_sorted_least pcId_asc_createdAt_desc
             pcId_asc_createdAt_desc_total (has_pcId (pcId e))
             (sort_by pcId_asc_createdAt_desc db)).
    - apply sorted_for_latest.
    - now apply group_first_find with (seen := []).
    - now apply sort_by_In.
    - unfold has_pcId. rewrite Es. apply String.eqb_refl. }
  rewrite pcId_asc_createdAt_desc_same in L by now symmetry. lia.
Qed.

Lemma getLatestData_entry_exists (db : Collection) (s : SystemInfo) :
  In s db -> exists e, In e (getLatestData db) /\ pcId e = pcId s.
Proof.
  intros Hs.
  assert (K : In (pcId s) (map pcId (getLatestData db)))
    by (apply getLatestData_keys, in_map, Hs).
  apply in_map_iff in K. destruct K as (e & E & He). eauto.
Qed.

(** X1.  A Sample that POST [/] accepted is what the queries return next.
    The answer 201 carries the ObjectId, the trimmed [pcId] and the clock;
    the collection has gained one document with the values of the body.
    If the documents the machine already had are older than the clock,
    that document is the [latest] of the machine and its entry in
    [getLatestData], and it is part of every history whose window reaches
    back to the clock. *)
Theorem post_then_queries_return_the_sample
  (body : PostBody) (oid : nat) (now : Z) (db db' : Collection)
  (id : nat) (pc : string) (ts : Z) :
  post_systemdata body oid now db = (PostCreated id pc ts, db') ->
  (forall s, In s db -> pcId s = pc -> createdAt s < now) ->
  exists d,
    db' = db ++ [d] /\
    _id d = id /\ id = oid /\ pcId d = pc /\ createdAt d = ts /\ ts = now /\
    body_cpu body = Some (cpu d) /\ body_ram body = Some (ram d) /\
    body_disk body = Some (disk d) /\ body_os body = Some (os d) /\
    body_uptime body = Some (uptime d) /\
    findOne_latest pc db' = Some d /\
    In d (getLatestData db') /\
    (forall h now', now' - h * ms_per_hour <= now ->
                    In d (getHistoricalData pc h now' db')).
Proof.
  intros H Hold.
  destruct (post_created_inv _ _ _ _ _ _ _ _ H)
    as (p & c & r & k & o & u & -> & _ & -> & -> & -> & ->).
  set (d := {| _id := oid; pcId := JS.trim p; cpu := c; ram := r; disk := k;
               os := o; uptime := u; createdAt := now |}) in *.
  assert (Hd : In d (db ++ [d])) by (apply in_or_app; right; now left).
  assert (Newest : forall e, In e (db ++ [d]) -> pcId e = JS.trim p ->
                             (forall s, In s (db ++ [d]) ->
                                        pcId s = JS.trim p ->
                                        createdAt s <= createdAt e) ->
                             e = d).
  { intros e He Pe Me. apply in_app_or in He.
    destruct He as [He|[<-|[]]]; [exfalso|reflexivity].
    specialize (Hold e He Pe). specialize (Me d Hd eq_refl). simpl in Me.
    lia. }
  pose proof (trim_idempotent p) as T.
  exists d. repeat split.
  - destruct (findOne_latest (JS.trim p) (db ++ [d])) as [e|] eqn:F.
    + destruct (findOne_latest_some _ _ _ F) as (He & Pe & Me).
      rewrite T in Pe, Me. f_equal. now apply Newest.
    + exfalso.
      exact (proj1 (findOne_latest_none _ _) F d Hd (eq_sym T)).
  - destruct (getLatestData_entry_exists _ _ Hd) as (e & He & Pe).
    assert (E : e = d).
    { apply Newest; [now apply getLatestData_In|exact Pe|].
      intros s Hs Ps. apply (getLatestData_max _ _ _ He Hs).
      rewrite Pe, Ps. reflexivity. }
    rewrite E in He. exact He.
  - intros h now' Hw. apply getHistoricalData_In. rewrite T.
    now repeat split.
Qed.

Lemma post_then_queries_return_the_sample_witness :
  exists d,
    [old_sample; posted_sample] = [old_sample] ++ [d] /\
    _id d = 12%nat /\ 12%nat = 12%nat /\ pcId d = "PC-1" /\
    createdAt d = 5000 /\ 5000 = 5000 /\
    body_cpu boundary_body = Some (cpu d) /\
    body_ram boundary_body = Some (ram d) /\
    body_disk boundary_body = Some (disk d) /\
    body_os boundary_body = Some (os d) /\
    body_uptime boundary_body = Some (uptime d) /\
    findOne_latest "PC-1" [old_sample; posted_sample] = Some d /\
    In d (getLatestData [old_sample; posted_sample]) /\
    (forall h now',
       now' - h * ms_per_hour <= 5000 ->
       In d (getHistoricalData "PC-1" h now' [old_sample; posted_sample])).
Proof.
  apply (post_then_queries_return_the_sample
           boundary_body 12 5000 [old_sample] [old_sample; posted_sample]
           12 "PC-1" 5000).
  - reflexivity.
  - intros s [<-|[]] _. simpl. lia.
Defined.

(** X2.  POST [/] keeps the collection within the schema and only ever
    appends.  If every stored document has non-empty [pcId] and [os],
    percentages in [0,100] and a non-negative [uptime], so has every
    document after the request, whatever the body; the old documents stay
    in place, and the collection grows by one document exactly when the
    answer is 201, by none otherwise. *)
Theorem post_systemdata_keeps_schema_and_appends
  (body : PostBody) (oid : nat) (now : Z) (db : Collection) :
  Forall within_schema db ->
  Forall within_schema
         (snd (post_systemdata body oid now db)) /\
  exists added,
    snd (post_systemdata body oid now db) = db ++ added /\
    (post_status (fst (post_systemdata body oid now db)) = 201 ->
     List.length added = 1%nat) /\
    (post_status (fst (post_systemdata body oid now db)) <> 201 ->
     added = []).
Proof.
  intros Hdb'.
  destruct (post_systemdata body oid now db) as [resp db'] eqn:P.
  destruct resp as [id pc ts|msg|msg].
  - destruct (post_created_inv _ _ _ _ _ _ _ _ P)
      as (p & c & r & k & o & u & _ & V & -> & _). simpl. split.
    + apply Forall_app. split; [exact Hdb'|].
      constructor; [|constructor]. now apply schema_valid_ranges.
    + eexists. split; [reflexivity|]. split; [reflexivity|].
      intros N. now contradiction N.
  - pose proof (post_not_created_unchanged body oid now db) as U.
    rewrite P in U. simpl in *. rewrite U by discriminate.
    split; [exact Hdb'|]. exists []. rewrite app_nil_r.
    split; [reflexivity|]. split; [discriminate|reflexivity].
  - pose proof (post_not_created_unchanged body oid now db) as U.
    rewrite P in U. simpl in *. rewrite U by discriminate.
    split; [exact Hdb'|]. exists []. rewrite app_nil_r.
    split; [reflexivity|]. split; [discriminate|reflexivity].
Qed.

Lemma post_systemdata_keeps_schema_and_appends_witness :
  Forall within_schema
         (snd (post_systemdata boundary_body 12 5000 [old_sample])) /\
  exists added,
    snd (post_systemdata boundary_body 12 5000 [old_sample]) =
      [old_sample] ++ added /\
    (post_status (fst (post_systemdata boundary_body 12 5000 [old_sample]))
     = 201 -> List.length added = 1%nat) /\
    (post_status (fst (post_systemdata boundary_body 12 5000 [old_sample]))
     <> 201 -> added = []).
Proof.
  apply (post_systemdata_keeps_schema_and_appends
           boundary_body 12 5000 [old_sample]).
  constructor; [|constructor]. apply schema_valid_ranges. reflexivity.
Defined.

(** X3.  A [pcId] made of white space only passes the check of the route
    (it is a non-empty string) but not the schema, whose [trim] leaves an
    empty string where a value is required: with every other field valid,
    the answer is 500, not 400, and nothing is stored. *)
Theorem post_systemdata_blank_pcId_is_500
  (p o : string) (c r k u : Q) (oid : nat) (now : Z) (db : Collection) :
  p <> "" -> JS.trim p = "" -> o <> "" ->
  (0 <= c <= 100 /\ 0 <= r <= 100 /\ 0 <= k <= 100 /\ 0 <= u)%Q ->
  post_systemdata
    (mkPostBody (Some p) (Some c) (Some r) (Some k) (Some o) (Some u))
    oid now db = (PostError "Internal server error", db).
Proof.
  intros Hp Ht Ho (Hc & Hr & Hk & Hu). unfold post_systemdata. simpl.
  apply String.eqb_neq in Hp, Ho. rewrite Hp, Ho. simpl.
  assert (B : Qltb c 0 || Qltb 100 c || Qltb r 0 || Qltb 100 r
              || Qltb k 0 || Qltb 100 k || Qltb u 0 = false).
  { rewrite !orb_false_iff, !Qltb_ge. tauto. }
  rewrite B. unfold save, schema_valid. simpl. now rewrite Ht.
Qed.

Lemma post_systemdata_blank_pcId_is_500_witness :
  post_systemdata
    (mkPostBody (Some "   ") (Some 10%Q) (Some 20%Q) (Some 30%Q)
                (Some "Linux") (Some 5%Q))
    12 5000 [old_sample] = (PostError "Internal server error", [old_sample]).
Proof.
  apply (post_systemdata_blank_pcId_is_500 "   " "Linux" 10%Q 20%Q 30%Q 5%Q).
  - discriminate.
  - reflexivity.
  - discriminate.
  - repeat split; discriminate.
Defined.

(** White space beyond ASCII is white space too: a [pcId] that is a
    no-break space is trimmed to nothing and gets the 500, [hours] may
    start with one, and a query for a [pcId] with spaces around it finds
    the documents stored under the [pcId] without them. *)
Example no_break_space_is_white_space :
  JS.trim no_break_space = "" /\
  JS.trim (no_break_space ++ " PC-1 " ++ no_break_space)%string = "PC-1" /\
  post_systemdata blank_body 12 5000 [old_sample] =
    (PostError "Internal server error", [old_sample]) /\
  hours_param (Some (no_break_space ++ "24")%string) = Some 24 /\
  get_systemdata (Some " PC-1 ") (Some "1") 7200000
                 [old_sample; new_sample; other_sample] =
    GetOne " PC-1 " (Some new_sample) [new_sample] "1 hours".
Proof. repeat split. Qed.

(** * GET [/] with a [pcId]: [latest] and [historical] together *)

(** X4.  In one answer of GET [/] with a [pcId], [latest] and [historical]
    agree: no document of [historical] is newer than [latest], and when
    [historical] is not empty [latest] is not [null] and is itself part
    of [historical]. *)
Theorem get_systemdata_latest_agrees_with_historical
  (p : string) (q_hours : option string) (h now : Z) (db : Collection)
  (latest : option SystemInfo) (historical : list SystemInfo)
  (timeRange : string) :
  p <> "" -> hours_param q_hours = Some h -> 1 <= h <= 168 ->
  get_systemdata (Some p) q_hours now db =
    GetOne p latest historical timeRange ->
  (forall s, In s historical ->
     exists e, latest = Some e /\ createdAt s <= createdAt e) /\
  (historical <> [] -> exists e, latest = Some e /\ In e historical).
Proof.
  intros Hp Hq Hh G.
  rewrite (get_systemdata_one p q_hours h now db Hp Hq Hh) in G.
  injection G as <- <- _.
  assert (A : forall s, In s (getHistoricalData p h now db) ->
                        exists e, findOne_latest p db = Some e /\
                                  createdAt s <= createdAt e /\
                                  In e (getHistoricalData p h now db)).
  { intros s Hs. apply getHistoricalData_In in Hs.
    destruct Hs as (Is & Ps & Ws).
    destruct (findOne_latest p db) as [e|] eqn:F.
    - destruct (findOne_latest_some _ _ _ F) as (Ie & Pe & Me).
      exists e. split; [reflexivity|]. specialize (Me s Is Ps).
      split; [exact Me|]. apply getHistoricalData_In.
      repeat split; [exact Ie|exact Pe|lia].
    - exfalso. exact (proj1 (findOne_latest_none _ _) F s Is Ps). }
  split.
  - intros s Hs. destruct (A s Hs) as (e & F & L & _). eauto.
  - intros N. destruct (getHistoricalData p h now db) as [|s r] eqn:E;
      [contradiction|].
    destruct (A s (or_introl eq_refl)) as (e & F & _ & I). eauto.
Qed.

Lemma get_systemdata_latest_agrees_with_historical_witness :
  (forall s, In s [new_sample] ->
     exists e, Some new_sample = Some e /\ createdAt s <= createdAt e) /\
  ([new_sample] <> [] ->
   exists e, Some new_sample = Some e /\ In e [new_sample]).
Proof.
  apply (get_systemdata_latest_agrees_with_historical
           "PC-1" (Some "1") 1 7200000
           [old_sample; new_sample; other_sample]
           (Some new_sample) [new_sample] "1 hours").
  - discriminate.
  - reflexivity.
  - lia.
  - reflexivity.
Defined.

(** * More on the stable sort: restricting the candidates *)

Section FirstBest.
Context {A : Type}.
Variable leb : A -> A -> bool.
Hypothesis leb_total : forall a b, leb a b = true \/ leb b a = true.
Hypothesis leb_trans :
  forall a b c, leb a b = true -> leb b c = true -> leb a c = true.






End FirstBest.



(** * The TTL monitor and the list of machines *)


(** The monitor at work: the machine whose only Sample expired leaves the
    list, the other one keeps its entry. *)
Example ttl_sweep_drops_stale_machine :
  getLatestData [old_sample; other_sample] = [old_sample; other_sample] /\
  getLatestData (ttl_sweep 86430000 [old_sample; other_sample]) =
    [other_sample].
Proof. split; reflexivity. Qed.

(** * The overview and the schema *)

Section OverviewBounds.
Local Open Scope Q_scope.

Lemma Qsum_bounds (lo hi : Q) (xs : list Q) :
  Forall (fun x => lo <= x <= hi) xs ->
  inject_Z (Z.of_nat (List.length xs)) * lo <= Qsum xs /\
  Qsum xs <= inject_Z (Z.of_nat (List.length xs)) * hi.
Proof.
  induction 1 as [|x r [Hl Hh] Hr [IH1 IH2]].
  - simpl. change (inject_Z 0) with 0. split; lra.
  - change (Qsum (x :: r)) with (x + Qsum r).
    change (List.length (x :: r)) with (S (List.length r)).
    rewrite Nat2Z.inj_succ. unfold Z.succ. rewrite inject_Z_plus.
    change (inject_Z 1) with 1.
    split; nra.
Qed.

Lemma arithmetic_mean_bounds (lo hi : Q) (xs : list Q) :
  xs <> [] -> Forall (fun x => lo <= x <= hi) xs ->
  lo <= arithmetic_mean xs <= hi.
Proof.
  intros N H. destruct (Qsum_bounds lo hi xs H) as [H1 H2].
  unfold arithmetic_mean.
  assert (P : 0 < inject_Z (Z.of_nat (List.length xs))).
  { destruct xs; [contradiction|]. simpl List.length.
    rewrite Nat2Z.inj_succ. unfold Z.succ. rewrite inject_Z_plus.
    change (inject_Z 1) with 1.
    assert (0 <= inject_Z (Z.of_nat (List.length xs))).
    { change 0 with (inject_Z 0). rewrite <- Zle_Qle. lia. }
    lra. }
  split.
  - apply Qle_shift_div_l; [exact P|]. lra.
  - apply Qle_shift_div_r; [exact P|]. lra.
Qed.

Lemma round_half_even_bounds (x : Q) (n : Z) :
  0 <= x <= inject_Z n -> (0 <= round_half_even x <= n)%Z.
Proof.
  intros [H0 Hn]. unfold round_half_even.
  pose proof (Qfloor_le x) as L. pose proof (Qlt_floor x) as U.
  rewrite inject_Z_plus in U. change (inject_Z 1) with 1 in U.
  assert (F0 : (0 <= Qfloor x)%Z).
  { change 0%Z with (Qfloor 0). now apply Qfloor_resp_le. }
  assert (Fn : (Qfloor x <= n)%Z).
  { rewrite <- (Qfloor_Z n). now apply Qfloor_resp_le. }
  destruct (Z.eq_dec (Qfloor x) n) as [E|NE].
  - assert (C : (x - inject_Z (Qfloor x) ?= 1 # 2) = Lt).
    { apply (proj1 (Qlt_alt _ _)). rewrite E in L |- *. lra. }
    rewrite C. lia.
  - destruct (x - inject_Z (Qfloor x) ?= 1 # 2);
      [destruct (Z.even (Qfloor x))| |]; lia.
Qed.

Lemma round2_bounds (q : Q) : 0 <= q <= 100 -> 0 <= round2 q <= 100.
Proof.
  intros [H0 H1]. unfold round2.
  destruct (round_half_even_bounds (q * 100) 10000) as [A B].
  { change (inject_Z 10000) with 10000. split; lra. }
  unfold Qle. simpl. split; lia.
Qed.

End OverviewBounds.

Lemma overview_over_totalPCs (w : list SystemInfo) :
  totalPCs (overview_over w) = distinct_pcIds w.
Proof. now destruct w. Qed.

Lemma overview_over_bounds (w : list SystemInfo) :
  Forall within_schema w ->
  (0 <= avgCpu (overview_over w) <= 100 /\
   0 <= avgRam (overview_over w) <= 100 /\
   0 <= avgDisk (overview_over w) <= 100)%Q.
Proof.
  intros H. destruct w as [|x r].
  - simpl. repeat split; discriminate.
  - change (avgCpu (overview_over (x :: r)))
      with (round2 (arithmetic_mean (map cpu (x :: r)))).
    change (avgRam (overview_over (x :: r)))
      with (round2 (arithmetic_mean (map ram (x :: r)))).
    change (avgDisk (overview_over (x :: r)))
      with (round2 (arithmetic_mean (map disk (x :: r)))).
    repeat split; apply round2_bounds;
      (apply arithmetic_mean_bounds; [discriminate|]);
      apply Forall_map; (eapply Forall_impl; [|exact H]);
      intros d (_ & _ & Hc & Hr & Hk & _); assumption.
Qed.

(** X6.  As long as the stored documents are within the schema, the three
    averages of the overview that GET [/] returns lie between 0 and 100,
    rounding included. *)
Theorem overview_averages_between_0_and_100
  (q_hours : option string) (h now : Z) (db : Collection) (o : Overview) :
  Forall within_schema db ->
  hours_param q_hours = Some h -> 1 <= h <= 168 ->
  response_overview (get_systemdata None q_hours now db) = Some o ->
  (0 <= avgCpu o <= 100 /\ 0 <= avgRam o <= 100 /\
   0 <= avgDisk o <= 100)%Q.
Proof.
  intros Hdb Hq Hh R.
  rewrite (get_systemdata_all q_hours h now db Hq Hh) in R. simpl in R.
  rewrite getOverviewStats_overview in R. injection R as <-.
  apply overview_over_bounds. unfold allWithinWindow.
  apply Forall_forall. intros d Hd. apply filter_In in Hd.
  rewrite Forall_forall in Hdb. now apply Hdb.
Qed.

Lemma overview_averages_between_0_and_100_witness :
  (0 <= avgCpu (overview_over [cpu10; cpu20; cpu30]) <= 100 /\
   0 <= avgRam (overview_over [cpu10; cpu20; cpu30]) <= 100 /\
   0 <= avgDisk (overview_over [cpu10; cpu20; cpu30]) <= 100)%Q.
Proof.
  apply (overview_averages_between_0_and_100
           None 24 4000 [cpu10; cpu20; cpu30]).
  - repeat constructor; discriminate.
  - reflexivity.
  - lia.
  - reflexivity.
Defined.

(** X7.  In one answer of GET [/] without a [pcId], [totalPCs] of the
    overview never exceeds the number of entries of [latest]; the two are
    equal when every entry of [latest] dates from the last 24 hours.  A
    machine whose newest Sample is older than that is listed but not
    counted. *)
Theorem overview_totalPCs_at_most_latest
  (q_hours : option string) (h now : Z) (db : Collection)
  (latest : list SystemInfo) (o : Overview) (timeRange : string) :
  hours_param q_hours = Some h -> 1 <= h <= 168 ->
  get_systemdata None q_hours now db = GetAll latest o timeRange ->
  (totalPCs o <= List.length latest)%nat /\
  ((forall e, In e latest -> now - 24 * ms_per_hour <= createdAt e) ->
   totalPCs o = List.length latest).
Proof.
  intros Hq Hh G.
  rewrite (get_systemdata_all q_hours h now db Hq Hh) in G.
  rewrite getOverviewStats_overview in G. injection G as <- <- _.
  rewrite overview_over_totalPCs, getLatestData_count.
  unfold distinct_pcIds.
  assert (Sub : incl (nodup string_dec
                        (map pcId (allWithinWindow 24 now db)))
                     (nodup string_dec (map pcId db))).
  { intros p Hp. apply nodup_In in Hp. apply nodup_In.
    apply in_map_iff in Hp. destruct Hp as (d & <- & Hd).
    apply filter_In in Hd. apply in_map. tauto. }
  split.
  - apply NoDup_incl_length; [apply NoDup_nodup|exact Sub].
  - intros Fresh. apply Permutation_length, NoDup_Permutation;
      [apply NoDup_nodup|apply NoDup_nodup|].
    intros p. split; [apply Sub|].
    intros Hp. apply nodup_In in Hp. apply nodup_In.
    apply in_map_iff in Hp. destruct Hp as (d & <- & Hd).
    destruct (getLatestData_entry_exists db d Hd) as (e & He & <-).
    apply in_map, filter_In. split; [now apply getLatestData_In|].
    apply Z.leb_le. now apply Fresh.
Qed.

Lemma overview_totalPCs_at_most_latest_witness :
  (totalPCs (overview_over (allWithinWindow 24 86430000
                              [old_sample; other_sample]))
   <= List.length (getLatestData [old_sample; other_sample]))%nat /\
  ((forall e, In e (getLatestData [old_sample; other_sample]) ->
              86430000 - 24 * ms_per_hour <= createdAt e) ->
   totalPCs (overview_over (allWithinWindow 24 86430000
                              [old_sample; other_sample]))
   = List.length (getLatestData [old_sample; other_sample])).
Proof.
  apply (overview_totalPCs_at_most_latest
           None 24 86430000 [old_sample; other_sample]
           (getLatestData [old_sample; other_sample])
           (overview_over (allWithinWindow 24 86430000
                             [old_sample; other_sample]))
           "24 hours").
  - reflexivity.
  - lia.
  - reflexivity.
Defined.

(** One machine listed, none counted: its only Sample is 30 seconds past
    the 24 hours. *)
Example stale_machine_listed_not_counted :
  get_systemdata None None 86430000 [old_sample] =
  GetAll [old_sample] no_overview "24 hours".
Proof. reflexivity. Qed.

(** * [parseInt] and decimal numerals *)

Lemma digits_stop (rest : string) (v : Z) :
  stops_digits rest -> JS.digits 10 rest (Some v) = Some v.
Proof. destruct rest as [|c r]; simpl; [reflexivity|]. now intros ->. Qed.

Lemma digits_uint (d : Decimal.uint) :
  forall (acc : option Z) (rest : string),
  stops_digits rest -> d <> Nil ->
  JS.digits 10 (NilEmpty.string_of_uint d ++ rest) acc =
  Some (uint_val d (acc_val acc)).
Proof.
  induction d as [|d IH|d IH|d IH|d IH|d IH|d IH|d IH|d IH|d IH|d IH];
    intros acc rest Hr Hd; [contradiction| ..];
    cbn [NilEmpty.string_of_uint append JS.digits uint_val];
    match goal with
    | |- context [JS.digit_val 10 ?c] =>
        let v := eval vm_compute in (JS.digit_val 10 c) in
        change (JS.digit_val 10 c) with v
    end; cbv iota beta;
    fold (acc_val acc);
    (destruct d; [cbn [NilEmpty.string_of_uint append uint_val];
                  rewrite digits_stop by exact Hr; f_equal; lia
                 | rewrite IH by (exact Hr || discriminate);
                   cbn [acc_val]; f_equal; f_equal; lia ..]).
Qed.

Lemma uint_val_of_uint_acc (d : Decimal.uint) : forall acc : positive,
  Z.pos (Pos.of_uint_acc d acc) = uint_val d (Z.pos acc).
Proof.
  induction d; intros acc; cbn [Pos.of_uint_acc uint_val];
    [reflexivity|rewrite IHd; f_equal; lia ..].
Qed.

Lemma uint_val_of_uint (d : Decimal.uint) :
  Z.of_N (Pos.of_uint d) = uint_val d 0.
Proof.
  induction d; cbn [Pos.of_uint uint_val]; try reflexivity;
    [exact IHd|cbn [Z.of_N]; now rewrite uint_val_of_uint_acc ..].
Qed.

Lemma uint_val_to_uint (p : positive) : uint_val (Pos.to_uint p) 0 = Z.pos p.
Proof.
  rewrite <- uint_val_of_uint, DecimalPos.Unsigned.of_to. reflexivity.
Qed.

Lemma parseInt_minus (s : string) :
  JS.parseInt (String "-" s) = option_map (Z.mul (-1)) (unsigned_part s).
Proof.
  unfold JS.parseInt, unsigned_part.
  change (JS.skip_ws (String "-" s)) with (String "-" s). cbv iota beta.
  match goal with
  | |- context [let '(_, _) := ?m in _] => destruct m
  end. reflexivity.
Qed.

Lemma parseInt_digit (c : ascii) (s : string) :
  JS.digit_val 10 c <> None ->
  JS.parseInt (String c s) =
  option_map (Z.mul 1) (unsigned_part (String c s)).
Proof.
  unfold JS.parseInt, unsigned_part.
  destruct c as [[] [] [] [] [] [] [] []]; intros H;
    try (exfalso; apply H; reflexivity);
    match goal with
    | |- context [JS.skip_ws (String ?c s)] =>
        change (JS.skip_ws (String c s)) with (String c s)
    end; cbv iota beta;
    first [ reflexivity
          | match goal with
            | |- context [let '(_, _) := ?m in _] => destruct m
            end; reflexivity ].
Qed.

Lemma unsigned_part_decimal (c c' : ascii) (s : string) :
  c' <> "x"%char -> c' <> "X"%char ->
  unsigned_part (String c (String c' s)) =
  JS.digits 10 (String c (String c' s)) None.
Proof.
  intros Hx HX.
  destruct c as [[] [] [] [] [] [] [] []]; try reflexivity.
  destruct c' as [[] [] [] [] [] [] [] []]; try reflexivity;
    exfalso; (now apply Hx) || (now apply HX).
Qed.

Lemma sou_parse (d : Decimal.uint) (rest : string) :
  d <> Nil -> d <> D0 Nil -> stops_digits rest ->
  JS.parseInt (NilEmpty.string_of_uint d ++ rest) = Some (uint_val d 0) /\
  unsigned_part (NilEmpty.string_of_uint d ++ rest) = Some (uint_val d 0).
Proof.
  intros Hn Hz Hr.
  assert (U : unsigned_part (NilEmpty.string_of_uint d ++ rest) =
              JS.digits 10 (NilEmpty.string_of_uint d ++ rest) None).
  { destruct d as [|d|d|d|d|d|d|d|d|d|d]; try contradiction;
      cbn [NilEmpty.string_of_uint append]; try reflexivity.
    destruct d; try contradiction;
      cbn [NilEmpty.string_of_uint append]; reflexivity. }
  rewrite (digits_uint d None rest Hr Hn) in U. split; [|exact U].
  assert (P : JS.parseInt (NilEmpty.string_of_uint d ++ rest) =
              option_map (Z.mul 1)
                (unsigned_part (NilEmpty.string_of_uint d ++ rest))).
  { destruct d; try contradiction; cbn [NilEmpty.string_of_uint append];
      apply parseInt_digit; discriminate. }
  rewrite P, U. cbn [option_map acc_val]. f_equal. lia.
Qed.

Lemma suffix_ok_stops (z : Z) (rest : string) :
  suffix_ok z rest -> stops_digits rest.
Proof. destruct rest; simpl; tauto. Qed.

Lemma toString_pos (p : positive) :
  JS.toString (Z.pos p) = NilEmpty.string_of_uint (Pos.to_uint p).
Proof.
  unfold JS.toString. cbn [Z.to_int NilZero.string_of_int].
  unfold NilZero.string_of_uint.
  pose proof (DecimalPos.Unsigned.to_uint_nonnil p) as N.
  now destruct (Pos.to_uint p).
Qed.

Lemma toString_neg (p : positive) :
  JS.toString (Z.neg p) =
  String "-" (NilEmpty.string_of_uint (Pos.to_uint p)).
Proof.
  unfold JS.toString. cbn [Z.to_int NilZero.string_of_int].
  unfold NilZero.string_of_uint.
  pose proof (DecimalPos.Unsigned.to_uint_nonnil p) as N.
  now destruct (Pos.to_uint p).
Qed.

Lemma parseInt_toString_prefix (z : Z) (rest : string) :
  suffix_ok z rest -> JS.parseInt (JS.toString z ++ rest) = Some z.
Proof.
  intros H. pose proof (suffix_ok_stops z rest H) as Hr.
  destruct z as [|p|p].
  - change (JS.toString 0) with "0". cbn [append].
    rewrite parseInt_digit by discriminate.
    destruct rest as [|c r]; [reflexivity|].
    destruct H as [Hd [Hx HX]]; [reflexivity|].
    rewrite (unsigned_part_decimal _ _ _ Hx HX).
    cbn [JS.digits]. change (JS.digit_val 10 "0") with (Some 0).
    cbv iota beta. now rewrite Hd.
  - rewrite toString_pos.
    destruct (sou_parse (Pos.to_uint p) rest) as [P _];
      [apply DecimalPos.Unsigned.to_uint_nonnil
      |apply DecimalPos.Unsigned.to_uint_nonzero|exact Hr|].
    now rewrite P, uint_val_to_uint.
  - rewrite toString_neg. cbn [append]. rewrite parseInt_minus.
    destruct (sou_parse (Pos.to_uint p) rest) as [_ U];
      [apply DecimalPos.Unsigned.to_uint_nonnil
      |apply DecimalPos.Unsigned.to_uint_nonzero|exact Hr|].
    rewrite U, uint_val_to_uint. reflexivity.
Qed.

Lemma parseInt_toString (z : Z) : JS.parseInt (JS.toString z) = Some z.
Proof.
  rewrite <- (append_empty_r (JS.toString z)).
  now apply parseInt_toString_prefix.
Qed.

(** * The [hours] parameter of the routes *)

Lemma hours_param_decimal (h : Z) (rest : string) :
  suffix_ok h rest ->
  hours_param (Some (JS.toString h ++ rest)%string) = Some h.
Proof. apply parseInt_toString_prefix. Qed.

Lemma get_status_by_hours (q_pcId q_hours : option string) (h now : Z)
  (db : Collection) :
  hours_param q_hours = Some h ->
  (get_status (get_systemdata q_pcId q_hours now db) = 200 <-> 1 <= h <= 168).
Proof.
  intros Hq. unfold get_systemdata. rewrite Hq.
  destruct (Z.ltb_spec h 1); simpl.
  - split; [discriminate|lia].
  - destruct (Z.ltb_spec 168 h); simpl.
    + split; [discriminate|lia].
    + split; [lia|intros _].
      destruct q_pcId as [p|]; [|reflexivity].
      now destruct (negb (JS.falsy (Some p))).
Qed.

(** X8.  GET [/] reads [hours] as a decimal integer and accepts exactly
    the values from 1 to 168: for every integer [h] written in decimal,
    with or without a [pcId], the answer is 200 when [1 <= h <= 168] and
    400 otherwise. *)
Theorem get_systemdata_accepts_hours_1_to_168
  (q_pcId : option string) (h now : Z) (db : Collection) :
  (1 <= h <= 168 ->
   get_status (get_systemdata q_pcId (Some (JS.toString h)) now db) = 200) /\
  (~ 1 <= h <= 168 ->
   get_systemdata q_pcId (Some (JS.toString h)) now db =
     GetBadRequest "Invalid hours parameter (1-168)").
Proof.
  assert (Hq : hours_param (Some (JS.toString h)) = Some h)
    by apply parseInt_toString.
  split.
  - intros Hh. now apply (get_status_by_hours q_pcId _ h now db Hq).
  - intros Hh. unfold get_systemdata. rewrite Hq.
    destruct (Z.ltb_spec h 1); [reflexivity|].
    destruct (Z.ltb_spec 168 h); [reflexivity|]. lia.
Qed.

(** X9.  Text after the number is ignored: [hours=24h] or [hours=7 days]
    is read as 24 or 7.  For every integer [h] and every text that starts
    with no decimal digit (and, after a lone 0, with no [x]), GET [/] and
    DELETE [/cleanup] answer as they do for the number alone. *)
Theorem hours_trailing_text_is_ignored
  (q_pcId : option string) (h now : Z) (rest : string) (db : Collection) :
  suffix_ok h rest ->
  get_systemdata q_pcId (Some (JS.toString h ++ rest)%string) now db =
    get_systemdata q_pcId (Some (JS.toString h)) now db /\
  delete_cleanup (Some (JS.toString h ++ rest)%string) now db =
    delete_cleanup (Some (JS.toString h)) now db.
Proof.
  intros H. unfold get_systemdata, delete_cleanup.
  rewrite (hours_param_decimal h rest H).
  assert (Hq : hours_param (Some (JS.toString h)) = Some h)
    by apply parseInt_toString.
  rewrite Hq. split; reflexivity.
Qed.

Lemma hours_trailing_text_is_ignored_witness :
  get_systemdata (Some "PC-1") (Some (JS.toString 24 ++ "h")%string)
                 7200000 [old_sample; new_sample] =
    get_systemdata (Some "PC-1") (Some (JS.toString 24))
                   7200000 [old_sample; new_sample] /\
  delete_cleanup (Some (JS.toString 24 ++ "h")%string)
                 7200000 [old_sample; new_sample] =
    delete_cleanup (Some (JS.toString 24)) 7200000 [old_sample; new_sample].
Proof.
  apply (hours_trailing_text_is_ignored
           (Some "PC-1") 24 7200000 "h" [old_sample; new_sample]).
  split; [reflexivity|discriminate].
Defined.

(** A lone 0 followed by [x] is the start of a hexadecimal numeral:
    [hours=0x18] is read as 24. *)
Example hours_hexadecimal :
  hours_param (Some "0x18") = Some 24 /\ hours_param (Some "24h") = Some 24 /\
  hours_param (Some "h24") = None /\ hours_param (Some "") = None.
Proof. repeat split. Qed.

(** * The agent: sending one Sample *)

Lemma posted_schedule (delay : Z) (replies : list Agent.Reply) :
  forall attempt, posted (Agent.schedule delay attempt replies) = replies.
Proof.
  induction replies as [|r rest IH]; intros attempt; [reflexivity|].
  destruct rest as [|r' rest']; [reflexivity|].
  change (posted (Agent.schedule delay attempt (r :: r' :: rest')))
    with (r :: posted (Agent.schedule delay (attempt + 1) (r' :: rest'))).
  now rewrite IH.
Qed.

Lemma slept_schedule (delay : Z) (replies : list Agent.Reply) :
  forall attempt,
    2 * Agent.slept (Agent.schedule delay attempt replies) =
    delay * Z.of_nat (Nat.pred (List.length replies))
    * (2 * attempt + Z.of_nat (Nat.pred (List.length replies)) - 1).
Proof.
  induction replies as [|r rest IH]; intros attempt; [simpl; lia|].
  destruct rest as [|r' rest']; [simpl; lia|].
  change (Agent.slept (Agent.schedule delay attempt (r :: r' :: rest')))
    with (delay * attempt
          + Agent.slept (Agent.schedule delay (attempt + 1) (r' :: rest'))).
  specialize (IH (attempt + 1)).
  change (Nat.pred (List.length (r :: r' :: rest')))
    with (S (Nat.pred (List.length (r' :: rest')))).
  rewrite Nat2Z.inj_succ. nia.
Qed.

Section SendingFacts.
Context {World : Type}.
Variable post : World -> Agent.Reply * World.
Variable sleep : Z -> World -> World.
Variable dateNow : World -> Z.
Variable CONFIG : Agent.Config.

Let M := Agent.MAX_RETRIES CONFIG.
Let D := Agent.RETRY_DELAY CONFIG.

Lemma attempts_exit (fuel : nat) (attempt : Z)
  (lastError : option Agent.Reply) (st : Agent.State) (w : World) :
  M < attempt ->
  Agent.attempts post sleep dateNow CONFIG fuel attempt lastError st w =
  Agent.loop_exit lastError st w.
Proof.
  intros H. destruct fuel; simpl; [reflexivity|].
  fold M. destruct (Z.leb_spec attempt M); [lia|reflexivity].
Qed.

(** The loop from [attempt] on, with fuel for the iterations that are
    left: what it posts, how it sleeps, how it ends. *)
Lemma attempts_shape (fuel : nat) :
  forall (attempt : Z) (lastError : option Agent.Reply) (st : Agent.State)
         (w : World),
    M - attempt + 1 <= Z.of_nat fuel ->
    let o := Agent.attempts post sleep dateNow CONFIG fuel attempt
               lastError st w in
    exists replies,
      Agent.events o = Agent.schedule D attempt replies /\
      Z.of_nat (List.length replies) <= Z.max 0 (M - attempt + 1) /\
      match Agent.ending o with
      | Agent.ReturnsTrue =>
          exists earlier r,
            replies = earlier ++ [r] /\
            Forall (fun x => Agent.accepted x = false) earlier /\
            Agent.accepted r = true /\
            Agent.state o =
              {| Agent.retryCount := 0;
                 Agent.lastSuccessfulSend := dateNow (Agent.world o) |}
      | Agent.ReturnsFalse =>
          Z.of_nat (List.length replies) = Z.max 0 (M - attempt + 1) /\
          Forall (fun x => Agent.accepted x = false) replies /\
          Agent.state o = bumped st /\
          (replies = [] -> lastError <> None /\ Agent.world o = w)
      | Agent.Throws =>
          replies = [] /\ lastError = None /\ M < attempt /\
          Agent.state o = bumped st /\ Agent.world o = w
      end.
Proof.
  induction fuel as [|fuel IH]; intros attempt lastError st w Hf o.
  - exists []. subst o. simpl. repeat split; try lia.
    destruct lastError; simpl; repeat split; try lia; try constructor;
      try discriminate; auto.
  - destruct (Z.leb_spec attempt M) as [Hle|Hgt].
    2:{ subst o. rewrite attempts_exit by lia. exists []. simpl.
        repeat split; try lia.
        destruct lastError; simpl; repeat split; try lia; try constructor;
          try discriminate; auto. }
    subst o. cbn [Agent.attempts]. fold M D.
    destruct (Z.leb_spec attempt M) as [_|C]; [|lia].
    destruct (post w) as [r w1] eqn:P.
    destruct (Agent.accepted r) eqn:Ar.
    + exists [r]. cbn. repeat split; try lia.
      exists [], r. repeat split; auto.
    + destruct (Z.ltb_spec attempt M) as [Hlt|Hge].
      * destruct (IH (attempt + 1) (Some r) st (sleep (D * attempt) w1))
          as (replies & E & L & Hend); [lia|].
        set (o := Agent.attempts post sleep dateNow CONFIG fuel
                    (attempt + 1) (Some r) st (sleep (D * attempt) w1)) in *.
        exists (r :: replies).
        cbn [Agent.events Agent.ending Agent.state Agent.world].
        assert (N : replies <> []).
        { intros ->. destruct (Agent.ending o).
          - destruct Hend as (e & x & C & _). now destruct e.
          - destruct Hend as (C & _). simpl in C. lia.
          - destruct Hend as (_ & C & _). discriminate. }
        split.
        { rewrite E. destruct replies; [contradiction|reflexivity]. }
        split; [cbn [List.length]; lia|].
        destruct (Agent.ending o).
        -- destruct Hend as (e & x & -> & Fe & Ax & Sx).
           exists (r :: e), x. repeat split; auto.
        -- destruct Hend as (Le & Fe & Se & _).
           split; [cbn [List.length]; lia|].
           split; [now constructor|]. split; [exact Se|discriminate].
        -- destruct Hend as (C & _). contradiction.
      * assert (Em : attempt = M) by lia.
        rewrite attempts_exit by lia.
        exists [r]. cbn. repeat split; try lia.
        -- constructor; [exact Ar|constructor].
        -- discriminate.
        -- discriminate.
Qed.

(** What holds of the world after each step holds after the call, and
    what holds of each reply holds of all the replies posted. *)
Lemma attempts_invariant (I : World -> Prop) (R : Agent.Reply -> Prop)
  (fuel : nat) :
  (forall w, I w -> R (fst (post w)) /\ I (snd (post w))) ->
  (forall d w, I w -> I (sleep d w)) ->
  forall attempt lastError st w,
    I w ->
    let o := Agent.attempts post sleep dateNow CONFIG fuel attempt
               lastError st w in
    Forall R (posted (Agent.events o)) /\ I (Agent.world o).
Proof.
  intros Hpost Hsleep.
  induction fuel as [|fuel IH]; intros attempt lastError st w Hw;
    [simpl; split; [constructor|exact Hw]|].
  cbn [Agent.attempts].
  destruct (attempt <=? Agent.MAX_RETRIES CONFIG);
    [|simpl; split; [constructor|exact Hw]].
  destruct (Hpost w Hw) as [Rr Iw1]. destruct (post w) as [r w1].
  simpl in Rr, Iw1.
  destruct (Agent.accepted r).
  - simpl. split; [constructor; [exact Rr|constructor]|exact Iw1].
  - destruct (attempt <? Agent.MAX_RETRIES CONFIG).
    + destruct (IH (attempt + 1) (Some r) st _
                  (Hsleep (Agent.RETRY_DELAY CONFIG * attempt) _ Iw1))
        as [F Io].
      cbn [Agent.events Agent.world posted]. split; [now constructor|exact Io].
    + destruct (IH (attempt + 1) (Some r) st _ Iw1) as [F Io].
      cbn [Agent.events Agent.world posted]. split; [now constructor|exact Io].
Qed.

End SendingFacts.

Lemma sendDataToServer_shape {World : Type}
  (post : World -> Agent.Reply * World) (sleep : Z -> World -> World)
  (dateNow : World -> Z) (CONFIG : Agent.Config) (st : Agent.State)
  (w : World) :
  let o := Agent.sendDataToServer post sleep dateNow CONFIG st w in
  let replies := posted (Agent.events o) in
  Agent.events o = Agent.schedule (Agent.RETRY_DELAY CONFIG) 1 replies /\
  Z.of_nat (List.length replies) <= Z.max 0 (Agent.MAX_RETRIES CONFIG) /\
  match Agent.ending o with
  | Agent.ReturnsTrue =>
      exists earlier r,
        replies = earlier ++ [r] /\
        Forall (fun x => Agent.accepted x = false) earlier /\
        Agent.accepted r = true /\
        Agent.state o =
          {| Agent.retryCount := 0;
             Agent.lastSuccessfulSend := dateNow (Agent.world o) |}
  | Agent.ReturnsFalse =>
      1 <= Agent.MAX_RETRIES CONFIG /\
      Z.of_nat (List.length replies) = Agent.MAX_RETRIES CONFIG /\
      Forall (fun x => Agent.accepted x = false) replies /\
      Agent.state o = bumped st
  | Agent.Throws =>
      replies = [] /\ Agent.MAX_RETRIES CONFIG < 1 /\
      Agent.state o = bumped st /\ Agent.world o = w
  end.
Proof.
  intros o replies.
  assert (F : Agent.MAX_RETRIES CONFIG - 1 + 1 <=
              Z.of_nat (Z.to_nat (Agent.MAX_RETRIES CONFIG))) by lia.
  destruct (attempts_shape post sleep dateNow CONFIG
              (Z.to_nat (Agent.MAX_RETRIES CONFIG)) 1 None st w F)
    as (rs & E & L & Hend).
  fold (Agent.sendDataToServer post sleep dateNow CONFIG st w) in E, Hend.
  fold o in E, Hend.
  assert (R : replies = rs)
    by (unfold replies; rewrite E; apply posted_schedule).
  rewrite R. split; [exact E|]. split; [lia|].
  destruct (Agent.ending o).
  - exact Hend.
  - destruct Hend as (Le & Fe & Se & Ne).
    assert (rs <> []) by (intros C; destruct (Ne C) as [C' _]; now apply C').
    assert (0 < Z.of_nat (List.length rs)) by (destruct rs; [easy|simpl; lia]).
    repeat split; auto; lia.
  - destruct Hend as (A & _ & B & C & D). repeat split; auto; lia.
Qed.

(** X10.  One call of [sendDataToServer] posts at most [MAX_RETRIES]
    times and stops at the first reply it accepts (a 200 or a 201): every
    reply but the last was a failure.  Between two posts it sleeps
    [RETRY_DELAY] times the number of the attempt that failed, and it
    never sleeps after its last post; with [k] posts the sleeps add up to
    [RETRY_DELAY * k * (k - 1) / 2]. *)
Theorem sendDataToServer_posts_and_sleeps {World : Type}
  (post : World -> Agent.Reply * World) (sleep : Z -> World -> World)
  (dateNow : World -> Z) (CONFIG : Agent.Config) (st : Agent.State)
  (w : World) :
  let o := Agent.sendDataToServer post sleep dateNow CONFIG st w in
  let replies := posted (Agent.events o) in
  let k := Z.of_nat (List.length replies) in
  Agent.events o = Agent.schedule (Agent.RETRY_DELAY CONFIG) 1 replies /\
  k <= Z.max 0 (Agent.MAX_RETRIES CONFIG) /\
  Forall (fun r => Agent.accepted r = false) (removelast replies) /\
  2 * Agent.slept (Agent.events o) = Agent.RETRY_DELAY CONFIG * k * (k - 1).
Proof.
  intros o replies k.
  destruct (sendDataToServer_shape post sleep dateNow CONFIG st w)
    as (E & L & Hend).
  fold o in E, L, Hend. fold replies in E, L, Hend.
  split; [exact E|]. split; [exact L|]. split.
  - destruct (Agent.ending o).
    + destruct Hend as (e & r & -> & Fe & _). now rewrite removelast_last.
    + destruct Hend as (_ & _ & Fe & _).
      apply Forall_forall. intros x Hx. rewrite Forall_forall in Fe.
      apply Fe. clear -Hx. induction replies as [|a l IH]; [easy|].
      destruct l; [easy|]. destruct Hx as [<-|Hx]; [now left|right; auto].
    + destruct Hend as (-> & _). constructor.
  - rewrite E at 1. rewrite slept_schedule. subst k.
    destruct replies; simpl List.length; [simpl; lia|].
    rewrite Nat2Z.inj_succ. simpl Nat.pred. nia.
Qed.

(** X11.  What the ending of [sendDataToServer] tells.  It returns [true]
    only when its last post was accepted, and then [retryCount] is 0 and
    [lastSuccessfulSend] is the clock.  It returns [false] only after
    exactly [MAX_RETRIES] posts, all failed, and then [retryCount] has
    grown by one and [lastSuccessfulSend] has not moved.  It throws
    exactly when [MAX_RETRIES] is below 1 (the environment can make it
    negative): it then posts nothing, and [retryCount] grows all the
    same. *)
Theorem sendDataToServer_endings {World : Type}
  (post : World -> Agent.Reply * World) (sleep : Z -> World -> World)
  (dateNow : World -> Z) (CONFIG : Agent.Config) (st : Agent.State)
  (w : World) :
  let o := Agent.sendDataToServer post sleep dateNow CONFIG st w in
  (Agent.ending o = Agent.ReturnsTrue ->
   (exists earlier r,
      posted (Agent.events o) = earlier ++ [r] /\ Agent.accepted r = true) /\
   Agent.state o =
     {| Agent.retryCount := 0;
        Agent.lastSuccessfulSend := dateNow (Agent.world o) |}) /\
  (Agent.ending o = Agent.ReturnsFalse ->
   1 <= Agent.MAX_RETRIES CONFIG /\
   Z.of_nat (List.length (posted (Agent.events o))) =
     Agent.MAX_RETRIES CONFIG /\
   Forall (fun r => Agent.accepted r = false) (posted (Agent.events o)) /\
   Agent.state o = bumped st) /\
  (Agent.ending o = Agent.Throws <-> Agent.MAX_RETRIES CONFIG < 1) /\
  (Agent.MAX_RETRIES CONFIG < 1 ->
   Agent.events o = [] /\ Agent.state o = bumped st /\ Agent.world o = w).
Proof.
  intros o.
  destruct (sendDataToServer_shape post sleep dateNow CONFIG st w)
    as (E & L & Hend).
  fold o in E, L, Hend.
  assert (Low : Agent.MAX_RETRIES CONFIG < 1 ->
                o = Agent.loop_exit None st w).
  { intros H. unfold o, Agent.sendDataToServer.
    now rewrite attempts_exit by lia. }
  repeat split.
  - destruct (Agent.ending o); try discriminate.
    destruct Hend as (e & r & Er & _ & Ar & _). eauto.
  - destruct (Agent.ending o); try discriminate.
    now destruct Hend as (e & r & _ & _ & _ & Sr).
  - destruct (Agent.ending o); try discriminate. tauto.
  - destruct (Agent.ending o); try discriminate. tauto.
  - destruct (Agent.ending o); try discriminate. tauto.
  - destruct (Agent.ending o); try discriminate. tauto.
  - destruct (Agent.ending o); try discriminate. tauto.
  - intros H. now rewrite (Low H).
  - now rewrite (Low H).
  - now rewrite (Low H).
  - now rewrite (Low H).
Qed.

(** [MAX_RETRIES=0] does not switch the retries off, it gives the default
    of 3; [MAX_RETRIES=-1] is taken as it is, and sending then throws. *)
Example max_retries_from_env :
  Agent.env_int (Some "0") 3 = 3 /\ Agent.env_int None 3 = 3 /\
  Agent.env_int (Some "five") 3 = 3 /\ Agent.env_int (Some "5") 3 = 5 /\
  Agent.env_int (Some "-1") 3 = -1.
Proof. repeat split. Qed.

(** * The agent facing the collector *)

Lemma post_systemdata_created
  (p o : string) (c r k u : Q) (oid : nat) (now : Z) (db : Collection) :
  JS.trim p <> "" -> o <> "" ->
  (0 <= c <= 100 /\ 0 <= r <= 100 /\ 0 <= k <= 100 /\ 0 <= u)%Q ->
  post_systemdata
    (mkPostBody (Some p) (Some c) (Some r) (Some k) (Some o) (Some u))
    oid now db =
  (PostCreated oid (JS.trim p) now,
   db ++ [ {| _id := oid; pcId := JS.trim p; cpu := c; ram := r;
              disk := k; os := o; uptime := u; createdAt := now |} ]).
Proof.
  intros Hp Ho (Hc & Hr & Hk & Hu). unfold post_systemdata. simpl.
  pose proof (trim_empty_of_empty p Hp) as Hp'.
  apply String.eqb_neq in Hp', Ho. rewrite Hp', Ho. simpl.
  assert (B : Qltb c 0 || Qltb 100 c || Qltb r 0 || Qltb 100 r
              || Qltb k 0 || Qltb 100 k || Qltb u 0 = false).
  { rewrite !orb_false_iff, !Qltb_ge. tauto. }
  rewrite B. unfold save.
  assert (V : schema_valid
                {| _id := oid; pcId := JS.trim p; cpu := c; ram := r;
                   disk := k; os := o; uptime := u; createdAt := now |}
              = true).
  { apply schema_valid_ranges. unfold within_schema. simpl.
    apply String.eqb_neq in Ho. tauto. }
  now rewrite V.
Qed.

(** X12.  A Sample within the schema, sent by the agent to the collector,
    is stored once: whatever [MAX_RETRIES >= 1] is, the agent posts a
    single time, gets the 201, returns [true] with [retryCount] back to 0
    and [lastSuccessfulSend] at the clock, and the collection has gained
    exactly that document. *)
Theorem agent_sends_valid_sample_once
  (p o : string) (c r k u : Q) (CONFIG : Agent.Config) (st : Agent.State)
  (w : Site) :
  JS.trim p <> "" -> o <> "" ->
  (0 <= c <= 100 /\ 0 <= r <= 100 /\ 0 <= k <= 100 /\ 0 <= u)%Q ->
  1 <= Agent.MAX_RETRIES CONFIG ->
  let body :=
    mkPostBody (Some p) (Some c) (Some r) (Some k) (Some o) (Some u) in
  let out :=
    Agent.sendDataToServer (site_post body) site_sleep clock CONFIG st w in
  Agent.ending out = Agent.ReturnsTrue /\
  Agent.events out = [Agent.Posted (Agent.Resolved 201)] /\
  collection (Agent.world out) =
    collection w ++
    [ {| _id := nextId w; pcId := JS.trim p; cpu := c; ram := r; disk := k;
         os := o; uptime := u; createdAt := clock w |} ] /\
  Agent.state out =
    {| Agent.retryCount := 0; Agent.lastSuccessfulSend := clock w |}.
Proof.
  intros Hp Ho Hr HM body out. subst out. unfold Agent.sendDataToServer.
  assert (F : Z.to_nat (Agent.MAX_RETRIES CONFIG) <> 0%nat) by lia.
  destruct (Z.to_nat (Agent.MAX_RETRIES CONFIG)) as [|fuel];
    [contradiction|].
  cbn [Agent.attempts].
  destruct (Z.leb_spec 1 (Agent.MAX_RETRIES CONFIG)) as [_|C]; [|lia].
  unfold site_post, body.
  rewrite (post_systemdata_created p o c r k u _ _ _ Hp Ho Hr).
  cbn. repeat split.
Qed.

Lemma agent_sends_valid_sample_once_witness :
  let out :=
    Agent.sendDataToServer (site_post boundary_body) site_sleep clock
      (Agent.config_of_env (fun _ => None))
      {| Agent.retryCount := 2; Agent.lastSuccessfulSend := 0 |}
      {| collection := [old_sample]; clock := 5000; nextId := 12 |} in
  Agent.ending out = Agent.ReturnsTrue /\
  Agent.events out = [Agent.Posted (Agent.Resolved 201)] /\
  collection (Agent.world out) =
    [old_sample] ++
    [ {| _id := 12; pcId := JS.trim "PC-1"; cpu := 0; ram := 100; disk := 0;
         os := "Linux"; uptime := 0; createdAt := 5000 |} ] /\
  Agent.state out =
    {| Agent.retryCount := 0; Agent.lastSuccessfulSend := 5000 |}.
Proof.
  apply (agent_sends_valid_sample_once
           "PC-1" "Linux" 0%Q 100%Q 0%Q 0%Q
           (Agent.config_of_env (fun _ => None))
           {| Agent.retryCount := 2; Agent.lastSuccessfulSend := 0 |}
           {| collection := [old_sample]; clock := 5000; nextId := 12 |}).
  - discriminate.
  - discriminate.
  - repeat split; discriminate.
  - vm_compute. discriminate.
Defined.

(** X13.  Retrying does not help a Sample that the collector rejects.  If
    the body is one that POST [/] never answers with a 201, the agent
    posts it [MAX_RETRIES] times (when that is at least 1), every post
    fails, it returns [false], [retryCount] grows by one, and the
    collection is what it was. *)
Theorem agent_retries_rejected_sample_in_vain
  (body : PostBody) (CONFIG : Agent.Config) (st : Agent.State) (w : Site) :
  (forall oid now db,
     post_status (fst (post_systemdata body oid now db)) <> 201) ->
  1 <= Agent.MAX_RETRIES CONFIG ->
  let out :=
    Agent.sendDataToServer (site_post body) site_sleep clock CONFIG st w in
  Agent.ending out = Agent.ReturnsFalse /\
  posted (Agent.events out) =
    repeat Agent.Rejected (Z.to_nat (Agent.MAX_RETRIES CONFIG)) /\
  collection (Agent.world out) = collection w /\
  Agent.state out = bumped st.
Proof.
  intros Hrej HM out.
  destruct (attempts_invariant (site_post body) site_sleep clock CONFIG
              (fun w' => collection w' = collection w)
              (fun r => r = Agent.Rejected)
              (Z.to_nat (Agent.MAX_RETRIES CONFIG))) with
    (attempt := 1) (lastError := @None Agent.Reply) (st := st) (w := w)
    as [FR Iw].
  - intros w' Hw'. unfold site_post.
    pose proof (Hrej (nextId w') (clock w') (collection w')) as N.
    pose proof (post_not_created_unchanged body (nextId w') (clock w')
                  (collection w') N) as U.
    destruct (post_systemdata body (nextId w') (clock w') (collection w'))
      as [resp db'].
    simpl in *. subst db'. split; [|exact Hw'].
    destruct resp; [now contradiction N|reflexivity|reflexivity].
  - intros d w' Hw'. exact Hw'.
  - reflexivity.
  - fold (Agent.sendDataToServer (site_post body) site_sleep clock CONFIG
            st w) in FR, Iw. fold out in FR, Iw.
    destruct (sendDataToServer_shape (site_post body) site_sleep clock
                CONFIG st w) as (_ & _ & Hend).
    fold out in Hend.
    assert (AllRej : forall l, Forall (fun r => r = Agent.Rejected) l ->
                               l = repeat Agent.Rejected (List.length l)).
    { induction 1 as [|x l -> _ IH]; [reflexivity|].
      simpl. now rewrite <- IH. }
    destruct (Agent.ending out).
    + exfalso. destruct Hend as (e & r & Er & _ & Ar & _).
      rewrite Er in FR. apply Forall_app in FR. destruct FR as [_ FR].
      inversion FR as [|? ? Rr _]; subst. discriminate.
    + destruct Hend as (_ & Len & _ & Sb).
      repeat split; [|exact Iw|exact Sb].
      rewrite (AllRej _ FR) at 1. f_equal. lia.
    + destruct Hend as (_ & C & _). lia.
Qed.

Lemma agent_retries_rejected_sample_in_vain_witness :
  let out :=
    Agent.sendDataToServer (site_post overloaded_body) site_sleep clock
      (Agent.config_of_env (fun _ => None))
      {| Agent.retryCount := 2; Agent.lastSuccessfulSend := 0 |}
      {| collection := [old_sample]; clock := 5000; nextId := 12 |} in
  Agent.ending out = Agent.ReturnsFalse /\
  posted (Agent.events out) =
    repeat Agent.Rejected
      (Z.to_nat (Agent.MAX_RETRIES (Agent.config_of_env (fun _ => None)))) /\
  collection (Agent.world out) = [old_sample] /\
  Agent.state out =
    bumped {| Agent.retryCount := 2; Agent.lastSuccessfulSend := 0 |}.
Proof.
  apply (agent_retries_rejected_sample_in_vain
           overloaded_body (Agent.config_of_env (fun _ => None))
           {| Agent.retryCount := 2; Agent.lastSuccessfulSend := 0 |}
           {| collection := [old_sample]; clock := 5000; nextId := 12 |}).
  - intros oid now db. discriminate.
  - vm_compute. discriminate.
Defined.

(** * The dashboard: uptime *)

Section Uptime.
Local Open Scope Q_scope.

Lemma Qfloor_unique (q : Q) (z : Z) :
  inject_Z z <= q -> q < inject_Z z + 1 -> Qfloor q = z.
Proof.
  intros L U.
  assert (A : (z <= Qfloor q)%Z).
  { rewrite <- (Qfloor_Z z). now apply Qfloor_resp_le. }
  assert (B : (Qfloor q < z + 1)%Z).
  { rewrite Zlt_Qlt, inject_Z_plus. change (inject_Z 1) with 1.
    pose proof (Qfloor_le q). lra. }
  lia.
Qed.

Lemma Qfloor_bounds (q : Q) :
  inject_Z (Qfloor q) <= q /\ q < inject_Z (Qfloor q) + 1.
Proof.
  split; [apply Qfloor_le|].
  pose proof (Qlt_floor q) as U. rewrite inject_Z_plus in U. exact U.
Qed.

Lemma trunc_nonneg (q : Q) : 0 <= q -> Dashboard.trunc q = Qfloor q.
Proof.
  intros H. unfold Dashboard.trunc.
  apply Qle_bool_iff in H. now rewrite H.
Qed.

Lemma rem_pos (s : Q) (m : Z) :
  0 <= s -> (0 < m)%Z ->
  Dashboard.rem s (inject_Z m) ==
  s - inject_Z m * inject_Z (Qfloor (s / inject_Z m)).
Proof.
  intros Hs Hm. unfold Dashboard.rem. rewrite trunc_nonneg; [reflexivity|].
  apply Qle_shift_div_l; [|lra].
  change 0 with (inject_Z 0). now rewrite <- Zlt_Qlt.
Qed.

Lemma uptime_parts_spec (s : Q) :
  0 < s ->
  let '(days, hours, minutes) := Dashboard.uptime_parts s in
  (0 <= days /\ 0 <= hours < 24 /\ 0 <= minutes < 60)%Z /\
  inject_Z (86400 * days + 3600 * hours + 60 * minutes) <= s /\
  s < inject_Z (86400 * days + 3600 * hours + 60 * minutes) + 60.
Proof.
  intros Hs. unfold Dashboard.uptime_parts.
  change 86400 with (inject_Z 86400). change 3600 with (inject_Z 3600).
  rewrite (Qfloor_comp _ _
             (Qdiv_comp _ _ (rem_pos s 86400 (Qlt_le_weak _ _ Hs) eq_refl)
                        _ _ (Qeq_refl _))).
  rewrite (Qfloor_comp _ _
             (Qdiv_comp _ _ (rem_pos s 3600 (Qlt_le_weak _ _ Hs) eq_refl)
                        _ _ (Qeq_refl _))).
  set (d := Qfloor (s / inject_Z 86400)).
  set (k := Qfloor (s / inject_Z 3600)).
  destruct (Qfloor_bounds (s / inject_Z 86400)) as [D1 D2]. fold d in D1, D2.
  destruct (Qfloor_bounds (s / inject_Z 3600)) as [K1 K2]. fold k in K1, K2.
  assert (E1 : s / inject_Z 86400 * 86400 == s)
    by (change (inject_Z 86400) with 86400; field).
  assert (E2 : s / inject_Z 3600 * 3600 == s)
    by (change (inject_Z 3600) with 3600; field).
  set (r1 := s - inject_Z 86400 * inject_Z d).
  set (r2 := s - inject_Z 3600 * inject_Z k).
  destruct (Qfloor_bounds (r1 / inject_Z 3600)) as [H1 H2].
  destruct (Qfloor_bounds (r2 / 60)) as [M1 M2].
  set (h := Qfloor (r1 / inject_Z 3600)) in *.
  set (m := Qfloor (r2 / 60)) in *.
  assert (E3 : r1 / inject_Z 3600 * 3600 == r1)
    by (change (inject_Z 3600) with 3600; field).
  assert (E4 : r2 / 60 * 60 == r2) by field.
  change (inject_Z 86400) with 86400 in *.
  change (inject_Z 3600) with 3600 in *.
  assert (R1 : r1 == s - 86400 * inject_Z d) by reflexivity.
  assert (R2 : r2 == s - 3600 * inject_Z k) by reflexivity.
  assert (Kh : k = (24 * d + h)%Z).
  { unfold k. apply Qfloor_unique.
    - rewrite inject_Z_plus, inject_Z_mult. change (inject_Z 24) with 24.
      clearbody r1 r2 d k h m. lra.
    - rewrite inject_Z_plus, inject_Z_mult. change (inject_Z 24) with 24.
      clearbody r1 r2 d k h m. lra. }
  clearbody r1 r2 d k h m. subst k.
  rewrite inject_Z_plus, inject_Z_mult in R2.
  change (inject_Z 24) with 24 in R2.
  assert (Hd : (0 <= d)%Z).
  { assert (T : (-1 < d)%Z)
      by (rewrite Zlt_Qlt; change (inject_Z (-1)) with (0 - 1); lra).
    lia. }
  assert (Hh : (0 <= h < 24)%Z).
  { assert (T1 : (-1 < h)%Z)
      by (rewrite Zlt_Qlt; change (inject_Z (-1)) with (0 - 1); lra).
    assert (T2 : (h < 24)%Z)
      by (rewrite Zlt_Qlt; change (inject_Z 24) with 24; lra).
    lia. }
  assert (Hm : (0 <= m < 60)%Z).
  { assert (T1 : (-1 < m)%Z)
      by (rewrite Zlt_Qlt; change (inject_Z (-1)) with (0 - 1); lra).
    assert (T2 : (m < 60)%Z)
      by (rewrite Zlt_Qlt; change (inject_Z 60) with 60; lra).
    lia. }
  split; [lia|].
  rewrite !inject_Z_plus, !inject_Z_mult.
  change (inject_Z 86400) with 86400. change (inject_Z 3600) with 3600.
  change (inject_Z 60) with 60.
  split; lra.
Qed.

(** X14.  [formatUptime] answers "Unknown" for an uptime of 0 as for a
    negative one.  For a positive number of seconds the days, hours and
    minutes it prints are whole numbers with [hours < 24] and
    [minutes < 60] that account for the uptime up to the minute: they add
    up to at most the uptime and to more than the uptime less 60
    seconds.  Days are printed only when positive, hours only when days
    or hours are. *)
Theorem formatUptime_breaks_down (s : Q) :
  (s <= 0 -> Dashboard.formatUptime (Some s) = "Unknown"%string) /\
  (0 < s ->
   let '(days, hours, minutes) := Dashboard.uptime_parts s in
   ((0 <= days /\ 0 <= hours < 24 /\ 0 <= minutes < 60)%Z /\
    inject_Z (86400 * days + 3600 * hours + 60 * minutes) <= s /\
    s < inject_Z (86400 * days + 3600 * hours + 60 * minutes) + 60) /\
   Dashboard.formatUptime (Some s) =
     if (0 <? days)%Z then
       (JS.toString days ++ "d " ++ JS.toString hours ++ "h "
        ++ JS.toString minutes ++ "m")%string
     else if (0 <? hours)%Z then
       (JS.toString hours ++ "h " ++ JS.toString minutes ++ "m")%string
     else (JS.toString minutes ++ "m")%string).
Proof.
  split.
  - intros H. unfold Dashboard.formatUptime.
    destruct (Qeq_bool s 0) eqn:E; [reflexivity|]. simpl.
    assert (L : s < 0).
    { apply Qle_lt_or_eq in H. destruct H as [H|H]; [exact H|].
      apply Qeq_bool_iff in H. congruence. }
    apply Qltb_lt in L. now rewrite L.
  - intros H. pose proof (uptime_parts_spec s H) as P.
    unfold Dashboard.formatUptime.
    destruct (Dashboard.uptime_parts s) as [[days hours] minutes].
    split; [exact P|].
    assert (E : Qeq_bool s 0 = false).
    { destruct (Qeq_bool s 0) eqn:E; [|reflexivity].
      apply Qeq_bool_iff in E. lra. }
    assert (L : Qltb s 0 = false) by (apply Qltb_ge; lra).
    now rewrite E, L.
Qed.

End Uptime.

(** * The dashboard: charts *)

(** X15.  The line chart of a card draws the last 20 entries of the
    state [historicalData], in their order, or all of them when there are
    fewer.  That state is never filled: [fetchHistoricalData] calls
    [setLoading], a name [PCCard.js] binds nowhere, before it sends its
    request, so that with a [pcId] it throws and without one it returns at
    once; either way the state is left as it is.  Whatever the collector
    would answer, and however often the card asks, [historicalData] stays
    the empty array it starts as and the chart stays empty. *)
Theorem PCCard_chart_stays_empty
  (pcId : option string) (rounds : list (Dashboard.ApiResult * Z)) :
  (forall shown, exists older newest,
     shown = older ++ newest /\
     Dashboard.chartData shown = map Dashboard.chart_point newest /\
     List.length newest = Nat.min 20 (List.length shown)) /\
  (forall result now st,
     snd (Dashboard.fetchHistoricalData pcId result now st) = st /\
     (fst (Dashboard.fetchHistoricalData pcId result now st)
        = Dashboard.Completes <-> JS.falsy pcId = true)) /\
  Dashboard.card_after pcId rounds = Dashboard.PCCard_initial /\
  Dashboard.chartData
    (Dashboard.historicalData (Dashboard.card_after pcId rounds)) = [].
Proof.
  assert (Same : forall result now st,
            snd (Dashboard.fetchHistoricalData pcId result now st) = st).
  { intros result now st. unfold Dashboard.fetchHistoricalData.
    now destruct (JS.falsy pcId). }
  assert (After : Dashboard.card_after pcId rounds = Dashboard.PCCard_initial).
  { unfold Dashboard.card_after. generalize Dashboard.PCCard_initial.
    induction rounds as [|round r IH]; intros st; simpl; [reflexivity|].
    now rewrite Same. }
  split; [|split; [|split]].
  - intros shown.
    exists (firstn (List.length shown - 20) shown),
           (skipn (List.length shown - 20) shown).
    split; [symmetry; apply firstn_skipn|]. split.
    + unfold Dashboard.chartData, Dashboard.slice_last.
      now rewrite length_map, skipn_map.
    + rewrite length_skipn. lia.
  - intros result now st. split; [apply Same|].
    unfold Dashboard.fetchHistoricalData.
    destruct (JS.falsy pcId); simpl; split; congruence.
  - exact After.
  - now rewrite After.
Qed.

(** A card whose collector holds Samples of its machine, asked twice. *)
Example PCCard_shows_no_history :
  getHistoricalData "PC-1" 24 7200000 [old_sample; new_sample]
    = [old_sample; new_sample] /\
  Dashboard.card_after (Some "PC-1")
    [(Dashboard.ApiBody true (Some [old_sample; new_sample]), 7200000);
     (Dashboard.ApiBody true (Some [old_sample; new_sample]), 7230000)]
    = Dashboard.PCCard_initial.
Proof. split; reflexivity. Qed.

Lemma In_hours_back (i : Z) : In i Dashboard.hours_back <-> 0 <= i <= 23.
Proof. unfold Dashboard.hours_back. simpl. lia. Qed.

Lemma pcsInHour_In (now : Z) (pcData : list SystemInfo) (i : Z)
  (pc : SystemInfo) :
  In pc (Dashboard.pcsInHour now pcData i) <->
  In pc pcData /\
  now - i * ms_per_hour <= createdAt pc < now - (i - 1) * ms_per_hour.
Proof.
  unfold Dashboard.pcsInHour, ms_per_hour.
  rewrite filter_In, andb_true_iff, Z.leb_le, Z.ltb_lt. intuition lia.
Qed.

Lemma hourly_entry_In (now : Z) (pcData : list SystemInfo) (i : Z)
  (pt : Dashboard.HourPoint) :
  In pt (Dashboard.hourly_entry now pcData i) <->
  Dashboard.pcsInHour now pcData i <> [] /\
  pt = {| Dashboard.hour := now - i * ms_per_hour;
          Dashboard.hour_cpu :=
            Dashboard.calculateAverage
              (map cpu (Dashboard.pcsInHour now pcData i));
          Dashboard.hour_ram :=
            Dashboard.calculateAverage
              (map ram (Dashboard.pcsInHour now pcData i));
          Dashboard.hour_disk :=
            Dashboard.calculateAverage
              (map disk (Dashboard.pcsInHour now pcData i)) |}.
Proof.
  unfold Dashboard.hourly_entry.
  replace (now - i * ms_per_hour) with (now - i * 60 * 60 * 1000)
    by (unfold ms_per_hour; lia).
  destruct (Dashboard.pcsInHour now pcData i) as [|x r]; simpl.
  - split; [contradiction|]. intros [N _]. now apply N.
  - split.
    + intros [<-|[]]. split; [discriminate|reflexivity].
    + intros [_ ->]. now left.
Qed.

(** X16.  The hours of [calculateHourlyAverages] do not overlap, and
    they reach from 23 hours before the clock to one hour after it: a
    Sample falls in at most one of the 24 hours, and in one exactly when
    [now - 23 h <= createdAt < now + 1 h].  A Sample between 23 and 24
    hours old is in none.  The result has one entry for each hour that
    holds a Sample, carrying the averages over the Samples of that
    hour. *)
Theorem hourly_buckets (now : Z) (pcData : list SystemInfo) :
  (forall pc i j,
     In pc (Dashboard.pcsInHour now pcData i) ->
     In pc (Dashboard.pcsInHour now pcData j) -> i = j) /\
  (forall pc,
     In pc pcData ->
     ((exists i, 0 <= i <= 23 /\ In pc (Dashboard.pcsInHour now pcData i)) <->
      now - 23 * ms_per_hour <= createdAt pc < now + ms_per_hour)) /\
  (forall pt,
     In pt (Dashboard.calculateHourlyAverages now pcData) <->
     exists i,
       0 <= i <= 23 /\ Dashboard.pcsInHour now pcData i <> [] /\
       pt = {| Dashboard.hour := now - i * ms_per_hour;
               Dashboard.hour_cpu :=
                 Dashboard.calculateAverage
                   (map cpu (Dashboard.pcsInHour now pcData i));
               Dashboard.hour_ram :=
                 Dashboard.calculateAverage
                   (map ram (Dashboard.pcsInHour now pcData i));
               Dashboard.hour_disk :=
                 Dashboard.calculateAverage
                   (map disk (Dashboard.pcsInHour now pcData i)) |}).
Proof.
  split; [|split].
  - intros pc i j Hi Hj. apply pcsInHour_In in Hi, Hj.
    unfold ms_per_hour in *. lia.
  - intros pc Hpc. split.
    + intros (i & Hi & Hin). apply pcsInHour_In in Hin.
      unfold ms_per_hour in *. lia.
    + intros H.
      exists ((now - createdAt pc + ms_per_hour - 1) / ms_per_hour).
      rewrite pcsInHour_In. unfold ms_per_hour in *.
      change (60 * 60 * 1000) with 3600000 in *.
      split; [|split; [exact Hpc|]];
        Z.to_euclidean_division_equations; lia.
  - intros pt. unfold Dashboard.calculateHourlyAverages.
    rewrite in_flat_map. split.
    + intros (i & Hi & Hpt). apply In_hours_back in Hi.
      apply hourly_entry_In in Hpt. exists i. tauto.
    + intros (i & Hi & N & E). exists i.
      split; [now apply In_hours_back|]. now apply hourly_entry_In.
Qed.

Lemma flat_map_single {A B : Type} (f : A -> list B) (l : list A) (a : A) :
  NoDup l -> In a l -> (forall i, In i l -> i <> a -> f i = []) ->
  flat_map f l = f a.
Proof.
  induction 1 as [|x r Nx Nr IH]; simpl; [contradiction|].
  intros [->|Ha] Hf.
  - assert (E : flat_map f r = []).
    { clear IH Nr. induction r as [|y r' IHr]; [reflexivity|]. simpl.
      rewrite (Hf y) by
        (try (right; now left); intros ->; apply Nx; now left).
      apply IHr.
      + intros C. apply Nx. now right.
      + intros i [<-|Hi] Na; apply Hf; auto; right; now right. }
    rewrite E. apply app_nil_r.
  - rewrite (Hf x (or_introl eq_refl)) by (intros ->; contradiction).
    simpl. apply IH; [exact Ha|]. intros i Hi. apply Hf. now right.
Qed.

Lemma NoDup_hours_back : NoDup Dashboard.hours_back.
Proof.
  unfold Dashboard.hours_back. simpl.
  repeat (constructor; [simpl; lia|]). constructor.
Qed.

Section Means.
Local Open Scope Q_scope.

Lemma fold_left_Qplus (xs : list Q) :
  forall a, fold_left (fun acc val => acc + val) xs a == a + Qsum xs.
Proof.
  induction xs as [|x r IH]; intros a; simpl; [lra|].
  rewrite IH. lra.
Qed.

Lemma calculateAverage_mean (xs : list Q) :
  xs <> [] -> Dashboard.calculateAverage xs == arithmetic_mean xs.
Proof.
  intros N. destruct xs as [|x r]; [contradiction|].
  unfold Dashboard.calculateAverage, arithmetic_mean.
  apply Qdiv_comp; [|reflexivity]. rewrite fold_left_Qplus. lra.
Qed.

End Means.

(** X17.  The overview chart is computed from [latest], one Sample for
    each machine, not from a history.  When every machine reported within
    the last hour, as agents that report every minute do, the chart has a
    single entry, for the hour that started one hour ago, with the means
    of [cpu], [ram] and [disk] over the machines. *)
Theorem overview_chart_of_fresh_latest (now : Z) (db : Collection) :
  let latest := getLatestData db in
  latest <> [] ->
  (forall pc, In pc latest -> now - ms_per_hour <= createdAt pc < now) ->
  exists pt,
    Dashboard.calculateHourlyAverages now latest = [pt] /\
    Dashboard.hour pt = now - ms_per_hour /\
    (Dashboard.hour_cpu pt == arithmetic_mean (map cpu latest) /\
     Dashboard.hour_ram pt == arithmetic_mean (map ram latest) /\
     Dashboard.hour_disk pt == arithmetic_mean (map disk latest))%Q.
Proof.
  intros latest N Fresh.
  assert (All : Dashboard.pcsInHour now latest 1 = latest).
  { unfold Dashboard.pcsInHour. apply forallb_filter_id.
    apply forallb_forall. intros pc Hpc. specialize (Fresh pc Hpc).
    unfold ms_per_hour in Fresh. apply andb_true_iff.
    split; [apply Z.leb_le|apply Z.ltb_lt]; lia. }
  assert (Out : forall i, i <> 1 -> Dashboard.hourly_entry now latest i = []).
  { intros i Hi. unfold Dashboard.hourly_entry.
    destruct (Dashboard.pcsInHour now latest i) as [|x r] eqn:E;
      [reflexivity|exfalso].
    assert (Hx : In x (Dashboard.pcsInHour now latest i))
      by (rewrite E; now left).
    apply pcsInHour_In in Hx. destruct Hx as [Hx Wx].
    specialize (Fresh x Hx). unfold ms_per_hour in *. lia. }
  unfold Dashboard.calculateHourlyAverages.
  rewrite (flat_map_single _ _ 1 NoDup_hours_back);
    [|apply In_hours_back; lia|intros i _ Hi; now apply Out].
  unfold Dashboard.hourly_entry. rewrite All.
  destruct latest as [|x r] eqn:E; [contradiction|]. rewrite <- E.
  eexists. split; [reflexivity|]. cbn [Dashboard.hour Dashboard.hour_cpu
    Dashboard.hour_ram Dashboard.hour_disk].
  split; [unfold ms_per_hour; lia|].
  repeat split; apply calculateAverage_mean; rewrite E; discriminate.
Qed.

(** * The agent: giving up on a server out of reach *)

Section MonitoringFacts.
Context {World Data : Type}.
Variable getSystemInfo : World -> option Data * World.
Variable post : Data -> World -> Agent.Reply * World.
Variable sleep : Z -> World -> World.
Variable dateNow : World -> Z.
Variable CONFIG : Agent.Config.

Hypothesis post_fails :
  forall d w, Agent.accepted (fst (post d w)) = false /\
              dateNow w <= dateNow (snd (post d w)).
Hypothesis info_clock :
  forall w, dateNow w <= dateNow (snd (getSystemInfo w)).
Hypothesis sleep_clock : forall d w, dateNow w + 1 <= dateNow (sleep d w).

Lemma cycle_without_success (st : Agent.State) (w : World) :
  let '(st1, w1) :=
    Agent.cycle getSystemInfo post sleep dateNow CONFIG st w in
  Agent.lastSuccessfulSend st1 = Agent.lastSuccessfulSend st /\
  dateNow w <= dateNow w1.
Proof.
  unfold Agent.cycle. pose proof (info_clock w) as Hi.
  destruct (getSystemInfo w) as [[data|] w0]; simpl in Hi;
    [|split; [reflexivity|exact Hi]].
  destruct (attempts_invariant (post data) sleep dateNow CONFIG
              (fun w' => dateNow w <= dateNow w')
              (fun r => Agent.accepted r = false)
              (Z.to_nat (Agent.MAX_RETRIES CONFIG))) with
    (attempt := 1) (lastError := @None Agent.Reply) (st := st) (w := w0)
    as [FR Iw].
  - intros w' Hw'. destruct (post_fails data w') as [A B].
    split; [exact A|lia].
  - intros d w' Hw'. pose proof (sleep_clock d w'). lia.
  - exact Hi.
  - fold (Agent.sendDataToServer (post data) sleep dateNow CONFIG st w0)
      in FR, Iw.
    split; [|exact Iw].
    destruct (sendDataToServer_shape (post data) sleep dateNow CONFIG st w0)
      as (_ & _ & Hend).
    destruct (Agent.ending _).
    + exfalso. destruct Hend as (e & r & Er & _ & Ar & _).
      rewrite Er in FR. apply Forall_app in FR. destruct FR as [_ FR].
      inversion FR as [|? ? Rr _]; subst. congruence.
    + destruct Hend as (_ & _ & _ & ->). reflexivity.
    + destruct Hend as (_ & _ & -> & _). reflexivity.
Qed.

Lemma monitor_stops (k : nat) :
  forall (st : Agent.State) (w : World),
    Agent.MAX_OFFLINE_TIME CONFIG
    - (dateNow w - Agent.lastSuccessfulSend st) + 1 <= Z.of_nat k ->
    exists n st' w',
      (n <= S k)%nat /\
      (forall fuel, (n <= fuel)%nat ->
         Agent.monitor getSystemInfo post sleep dateNow CONFIG fuel st w =
         Some (n, st', w')) /\
      Agent.lastSuccessfulSend st' = Agent.lastSuccessfulSend st /\
      Agent.MAX_OFFLINE_TIME CONFIG
      < dateNow w' - Agent.lastSuccessfulSend st'.
Proof.
  induction k as [|k IH]; intros st w Hk.
  - pose proof (cycle_without_success st w) as C.
    destruct (Agent.cycle getSystemInfo post sleep dateNow CONFIG st w)
      as [st1 w1] eqn:E. destruct C as [L T].
    exists 1%nat, st1, w1. split; [lia|]. split; [|split; [exact L|lia]].
    intros fuel Hf. destruct fuel as [|fuel]; [lia|].
    cbn [Agent.monitor]. rewrite E. unfold Agent.shouldContinueRunning.
    destruct (Z.ltb_spec (Agent.MAX_OFFLINE_TIME CONFIG)
                (dateNow w1 - Agent.lastSuccessfulSend st1));
      [reflexivity|lia].
  - pose proof (cycle_without_success st w) as C.
    destruct (Agent.cycle getSystemInfo post sleep dateNow CONFIG st w)
      as [st1 w1] eqn:E. destruct C as [L T].
    destruct (Z.ltb_spec (Agent.MAX_OFFLINE_TIME CONFIG)
                (dateNow w1 - Agent.lastSuccessfulSend st1)) as [Off|On].
    + exists 1%nat, st1, w1. split; [lia|]. split; [|split; [exact L|lia]].
      intros fuel Hf. destruct fuel as [|fuel]; [lia|].
      cbn [Agent.monitor]. rewrite E. unfold Agent.shouldContinueRunning.
      destruct (Z.ltb_spec (Agent.MAX_OFFLINE_TIME CONFIG)
                  (dateNow w1 - Agent.lastSuccessfulSend st1));
        [reflexivity|lia].
    + pose proof (sleep_clock (Agent.COLLECTION_INTERVAL CONFIG) w1) as S1.
      destruct (IH st1 (sleep (Agent.COLLECTION_INTERVAL CONFIG) w1))
        as (n & st' & w' & Hn & Hrun & L' & Off'); [lia|].
      exists (S n), st', w'. split; [lia|].
      split; [|split; [congruence|exact Off']].
      intros fuel Hf. destruct fuel as [|fuel]; [lia|].
      cbn [Agent.monitor]. rewrite E. unfold Agent.shouldContinueRunning.
      destruct (Z.ltb_spec (Agent.MAX_OFFLINE_TIME CONFIG)
                  (dateNow w1 - Agent.lastSuccessfulSend st1)); [lia|].
      simpl. rewrite (Hrun fuel) by lia. reflexivity.
Qed.

End MonitoringFacts.

(** X18.  An agent that never gets a Sample accepted stops by itself.  If
    no post is ever accepted and the clock moves on by at least one
    millisecond with every timer (and never backwards), [monitorSystem]
    calls [process.exit(1)] after finitely many runs, at most
    [MAX_OFFLINE_TIME] less the time already spent offline, plus 2; it
    exits at the end of the first run that finds more than
    [MAX_OFFLINE_TIME] elapsed since [lastSuccessfulSend], which no run
    has changed. *)
Theorem agent_stops_when_never_accepted {World Data : Type}
  (getSystemInfo : World -> option Data * World)
  (post : Data -> World -> Agent.Reply * World)
  (sleep : Z -> World -> World) (dateNow : World -> Z)
  (CONFIG : Agent.Config) (st : Agent.State) (w : World) :
  (forall d w, Agent.accepted (fst (post d w)) = false /\
               dateNow w <= dateNow (snd (post d w))) ->
  (forall w, dateNow w <= dateNow (snd (getSystemInfo w))) ->
  (forall d w, dateNow w + 1 <= dateNow (sleep d w)) ->
  exists n st' w',
    (1 <= n)%nat /\
    Z.of_nat n <=
      Z.max 0 (Agent.MAX_OFFLINE_TIME CONFIG
               - (dateNow w - Agent.lastSuccessfulSend st) + 1) + 1 /\
    (forall fuel, (n <= fuel)%nat ->
       Agent.monitor getSystemInfo post sleep dateNow CONFIG fuel st w =
       Some (n, st', w')) /\
    Agent.lastSuccessfulSend st' = Agent.lastSuccessfulSend st /\
    Agent.MAX_OFFLINE_TIME CONFIG
    < dateNow w' - Agent.lastSuccessfulSend st'.
Proof.
  intros Hpost Hinfo Hsleep.
  destruct (monitor_stops getSystemInfo post sleep dateNow CONFIG
              Hpost Hinfo Hsleep
              (Z.to_nat (Agent.MAX_OFFLINE_TIME CONFIG
                         - (dateNow w - Agent.lastSuccessfulSend st) + 1))
              st w) as (n & st' & w' & Hn & Hrun & L & Off); [lia|].
  exists n, st', w'.
  assert (1 <= n)%nat.
  { destruct n; [|lia]. specialize (Hrun 0%nat (le_n 0)). discriminate. }
  repeat split; auto; lia.
Qed.

Lemma agent_stops_when_never_accepted_witness :
  exists n st' w',
    (1 <= n)%nat /\
    Z.of_nat n <=
      Z.max 0 (Agent.MAX_OFFLINE_TIME
                 {| Agent.COLLECTION_INTERVAL := 1000;
                    Agent.MAX_RETRIES := 2; Agent.RETRY_DELAY := 100;
                    Agent.MAX_OFFLINE_TIME := 2500 |}
               - (clock {| collection := []; clock := 5000; nextId := 0 |}
                  - Agent.lastSuccessfulSend
                      {| Agent.retryCount := 0;
                         Agent.lastSuccessfulSend := 5000 |}) + 1) + 1 /\
    (forall fuel, (n <= fuel)%nat ->
       Agent.monitor (fun w : Site => (Some tt, w))
         (fun _ : unit => site_post overloaded_body) site_sleep clock
         {| Agent.COLLECTION_INTERVAL := 1000; Agent.MAX_RETRIES := 2;
            Agent.RETRY_DELAY := 100; Agent.MAX_OFFLINE_TIME := 2500 |}
         fuel
         {| Agent.retryCount := 0; Agent.lastSuccessfulSend := 5000 |}
         {| collection := []; clock := 5000; nextId := 0 |} =
       Some (n, st', w')) /\
    Agent.lastSuccessfulSend st' =
      Agent.lastSuccessfulSend
        {| Agent.retryCount := 0; Agent.lastSuccessfulSend := 5000 |} /\
    Agent.MAX_OFFLINE_TIME
      {| Agent.COLLECTION_INTERVAL := 1000; Agent.MAX_RETRIES := 2;
         Agent.RETRY_DELAY := 100; Agent.MAX_OFFLINE_TIME := 2500 |}
    < clock w' - Agent.lastSuccessfulSend st'.
Proof.
  apply (agent_stops_when_never_accepted
           (fun w : Site => (Some tt, w))
           (fun _ : unit => site_post overloaded_body) site_sleep clock).
  - intros d w. split; [reflexivity|]. simpl. lia.
  - intros w. simpl. lia.
  - intros d w. unfold site_sleep. simpl.
    destruct ((d <? 1) || (2147483647 <? d)) eqn:E; [lia|].
    apply orb_false_iff in E. destruct E as [E _].
    apply Z.ltb_ge in E. lia.
Defined.

(** The same agent, run: four runs of two posts each, and it exits 3400
    milliseconds after its start, once more than 2500 have passed. *)
Example agent_gives_up_after_four_runs :
  Agent.monitor (fun w : Site => (Some tt, w))
    (fun _ : unit => site_post overloaded_body) site_sleep clock
    {| Agent.COLLECTION_INTERVAL := 1000; Agent.MAX_RETRIES := 2;
       Agent.RETRY_DELAY := 100; Agent.MAX_OFFLINE_TIME := 2500 |}
    10
    {| Agent.retryCount := 0; Agent.lastSuccessfulSend := 5000 |}
    {| collection := []; clock := 5000; nextId := 0 |} =
  Some (4%nat,
        {| Agent.retryCount := 4; Agent.lastSuccessfulSend := 5000 |},
        {| collection := []; clock := 8400; nextId := 8 |}).
Proof. reflexivity. Qed.

Lemma overview_chart_of_fresh_latest_witness :
  let latest := getLatestData [new_sample; other_sample] in
  exists pt,
    Dashboard.calculateHourlyAverages 7200000 latest = [pt] /\
    Dashboard.hour pt = 7200000 - ms_per_hour /\
    (Dashboard.hour_cpu pt == arithmetic_mean (map cpu latest) /\
     Dashboard.hour_ram pt == arithmetic_mean (map ram latest) /\
     Dashboard.hour_disk pt == arithmetic_mean (map disk latest))%Q.
Proof.
  apply (overview_chart_of_fresh_latest
           7200000 [new_sample; other_sample]).
  - discriminate.
  - intros pc [<-|[<-|[]]]; simpl; unfold ms_per_hour; lia.
Defined.
